(** * near-private-payroll: proof transcoding and verifying-key cross-check

    Shallow embedding of the two Python scripts of the repository

    - [ethereum-test/scripts/convert_proof_to_solidity.py]
      (receipt slicing, little-endian words to big-endian uint256,
      digest splitting, public signals), and
    - [scripts/compare_vk_constants.py]
      (decimal constants canonicalised to little-endian hex and compared
      with the stored hex constants),

    together with the properties of their specification.

    Python [bytes] values are [list byte], Python [int] is [Z], Python
    [str] is [string] (one character per code point below 256), a [dict]
    with string keys is a [gmap string _].  Exceptions and printed lines
    are explicit: a computation yields the lines it printed and either a
    returned value or the exception it raised. *)

From Stdlib Require Import ZArith List Ascii String Lia.
From Stdlib Require Init.Byte Strings.Byte.
From stdpp Require Import base option list strings gmap.

Local Open Scope Z_scope.

Abbreviation byte := Init.Byte.byte.

(** ** Python primitives used by the scripts *)

Module Py.

(** The exceptions the two scripts can raise. *)
Inductive exception : Type :=
| KeyError (key : string)
| ValueError
| OverflowError.

(** Result of evaluating an expression: a value or a raised exception. *)
Inductive outcome (A : Type) : Type :=
| Returned (a : A)
| Raised (e : exception).
Arguments Returned {A} a.
Arguments Raised {A} e.

Definition obind {A B} (m : outcome A) (f : A -> outcome B) : outcome B :=
  match m with
  | Returned a => f a
  | Raised e => Raised e
  end.

(** A statement sequence that prints: the lines printed so far, in
    order, and how the sequence ended. *)
Definition run (L A : Type) : Type := (list L * outcome A)%type.

Definition ret {L A} (a : A) : run L A := ([], Returned a).
Definition print {L} (l : L) : run L unit := ([l], Returned tt).
Definition eval {L A} (m : outcome A) : run L A := ([], m).

Definition bind {L A B} (m : run L A) (f : A -> run L B) : run L B :=
  match m with
  | (out, Returned a) => let (out', r) := f a in (out ++ out', r)
  | (out, Raised e) => (out, Raised e)
  end.

(** Exit status of [exit(f())]: the returned status, or 1 when an
    exception escapes to the interpreter. *)
Definition exit_status {L} (m : run L Z) : Z :=
  match m with
  | (_, Returned s) => s
  | (_, Raised _) => 1
  end.

(** *** bytes *)

Definition byte_val (b : byte) : Z := Z.of_N (Byte.to_N b).

Definition byte_of_Z (z : Z) : byte :=
  match Byte.of_N (Z.to_N (z mod 256)) with
  | Some b => b
  | None => Byte.x00
  end.

(** [data[a:b]] for constants [0 <= a <= b]: indices past the end are
    clipped, never an error. *)
Definition slice {A} (a b : nat) (data : list A) : list A :=
  firstn (b - a) (skipn a data).

(** [int.from_bytes(data, 'big')] *)
Definition int_from_bytes_big (data : list byte) : Z :=
  fold_left (fun acc b => acc * 256 + byte_val b) data 0.

(** The [length] low-order base-256 digits of [n], most significant
    first. *)
Fixpoint be_bytes (length : nat) (n : Z) : list byte :=
  match length with
  | O => []
  | S k => be_bytes k (n / 256) ++ [byte_of_Z (n mod 256)]
  end.

(** [n.to_bytes(length, byteorder='big')]: negative and too large
    integers raise [OverflowError]. *)
Definition int_to_bytes_big (n : Z) (length : nat) : outcome (list byte) :=
  if n <? 0 then Raised OverflowError
  else if 256 ^ Z.of_nat length <=? n then Raised OverflowError
  else Returned (be_bytes length n).

(** *** hexadecimal *)

Definition hex_digit (n : N) : ascii :=
  ascii_of_N (if (n <? 10)%N then 48 + n else 87 + n).

(** [data.hex()]: two lowercase digits per byte. *)
Fixpoint bytes_hex (data : list byte) : string :=
  match data with
  | [] => EmptyString
  | b :: rest =>
      String (hex_digit (Byte.to_N b / 16))
        (String (hex_digit (Byte.to_N b mod 16)) (bytes_hex rest))
  end.

Definition hex_value (c : ascii) : option N :=
  let n := N_of_ascii c in
  if ((48 <=? n) && (n <=? 57))%N then Some (n - 48)%N
  else if ((97 <=? n) && (n <=? 102))%N then Some (n - 87)%N
  else if ((65 <=? n) && (n <=? 70))%N then Some (n - 55)%N
  else None.

(** ASCII whitespace, as skipped by [bytes.fromhex]. *)
Definition is_ascii_space (c : ascii) : bool :=
  let n := N_of_ascii c in
  (((9 <=? n) && (n <=? 13)) || (n =? 32))%N.

(** [bytes.fromhex(s)]: pairs of hex digits, whitespace allowed
    between pairs. *)
Fixpoint bytes_fromhex (s : string) : outcome (list byte) :=
  match s with
  | EmptyString => Returned []
  | String c rest =>
      if is_ascii_space c then bytes_fromhex rest
      else
        match rest with
        | EmptyString => Raised ValueError
        | String d rest' =>
            match hex_value c, hex_value d with
            | Some hi, Some lo =>
                obind (bytes_fromhex rest')
                  (fun bs => Returned (byte_of_Z (Z.of_N (16 * hi + lo)) :: bs))
            | _, _ => Raised ValueError
            end
        end
  end.

(** *** int(str) *)

(** White space stripped by [int()] around the literal, for code points
    below 256. *)
Definition is_space (c : ascii) : bool :=
  let n := N_of_ascii c in
  (((9 <=? n) && (n <=? 13)) || (n =? 32) || (n =? 133) || (n =? 160))%N.

Definition digit_value (c : ascii) : option Z :=
  let n := N_of_ascii c in
  if ((48 <=? n) && (n <=? 57))%N then Some (Z.of_N (n - 48)) else None.

Definition is_underscore (c : ascii) : bool := (N_of_ascii c =? 95)%N.

(** Digits with single underscores between them.  [sep] tells that
    the previous character was not a digit (start of the literal or an
    underscore), so that a digit must follow. *)
Fixpoint parse_digits (acc : Z) (sep : bool) (cs : list ascii) : option Z :=
  match cs with
  | [] => if sep then None else Some acc
  | c :: rest =>
      match digit_value c with
      | Some d => parse_digits (acc * 10 + d) false rest
      | None =>
          if is_underscore c && negb sep then parse_digits acc true rest
          else None
      end
  end.

Fixpoint lstrip (cs : list ascii) : list ascii :=
  match cs with
  | c :: rest => if is_space c then lstrip rest else cs
  | [] => []
  end.

Definition strip (cs : list ascii) : list ascii :=
  rev (lstrip (rev (lstrip cs))).

(** The default limit on the number of digits [int()] converts
    ([sys.get_int_max_str_digits()]). *)
Definition int_max_str_digits : nat := 4300.

(** The number of digits of a literal, underscores not counted. *)
Definition count_digits (cs : list ascii) : nat :=
  length (List.filter
            (fun c => match digit_value c with Some _ => true | None => false end)
            cs).

(** [int(s)] in base 10: optional white space, optional sign, digits;
    a literal of more than [int_max_str_digits] digits is refused. *)
Definition int_of_str (s : string) : outcome Z :=
  let body := strip (list_ascii_of_string s) in
  let signed :=
    match body with
    | c :: rest =>
        if (N_of_ascii c =? 43)%N then (1, rest)
        else if (N_of_ascii c =? 45)%N then (-1, rest)
        else (1, body)
    | [] => (1, body)
    end in
  match parse_digits 0 true (snd signed) with
  | Some n =>
      if (int_max_str_digits <? count_digits (snd signed))%nat
      then Raised ValueError
      else Returned (fst signed * n)
  | None => Raised ValueError
  end.

(** [d[k]] on a dict with string keys. *)
Definition getitem {V} (d : gmap string V) (k : string) : outcome V :=
  match d !! k with
  | Some v => Returned v
  | None => Raised (KeyError k)
  end.

End Py.

(** ** ethereum-test/scripts/convert_proof_to_solidity.py *)

Module ConvertProof.
Import Py.

(** Convert 32-byte little-endian to big-endian uint256. *)
Definition bytes_to_uint256_be (data : list byte) : Z :=
  let reversed_bytes := rev data in
  int_from_bytes_big reversed_bytes.

(** The receipt structure read by [main]:
    [[image_id (32)] [claim_digest (32)] [seal (256)] [journal (144)]]. *)
Record receipt : Type := {
  image_id : list byte;
  claim_digest : list byte;
  seal : list byte;
  journal : list byte
}.

Definition parse_receipt (receipt_bytes : list byte) : receipt :=
  {| image_id := slice 0 32 receipt_bytes;
     claim_digest := slice 32 64 receipt_bytes;
     seal := slice 64 320 receipt_bytes;
     journal := slice 320 464 receipt_bytes |}.

(** The seal: [[A (64)] [B (128)] [C (64)]], eight 32-byte words. *)
Record seal_words : Type := {
  a_x_bytes : list byte;
  a_y_bytes : list byte;
  b_x_c0_bytes : list byte;
  b_x_c1_bytes : list byte;
  b_y_c0_bytes : list byte;
  b_y_c1_bytes : list byte;
  c_x_bytes : list byte;
  c_y_bytes : list byte
}.

Definition parse_seal (seal : list byte) : seal_words :=
  {| a_x_bytes := slice 0 32 seal;
     a_y_bytes := slice 32 64 seal;
     b_x_c0_bytes := slice 64 96 seal;
     b_x_c1_bytes := slice 96 128 seal;
     b_y_c0_bytes := slice 128 160 seal;
     b_y_c1_bytes := slice 160 192 seal;
     c_x_bytes := slice 192 224 seal;
     c_y_bytes := slice 224 256 seal |}.

(** Split digest according to RISC Zero's splitDigest. *)
Definition split_digest (digest : list byte) : Z * Z :=
  let reversed_digest := rev digest in
  let lower_128 := slice 16 32 reversed_digest in
  let upper_128 := slice 0 16 reversed_digest in
  let a0 := int_from_bytes_big (lower_128 ++ repeat Byte.x00 16) in
  let a1 := int_from_bytes_big (upper_128 ++ repeat Byte.x00 16) in
  (a0, a1).

Definition BN254_CONTROL_ID_BE : outcome (list byte) :=
  bytes_fromhex "2f4d79bbb8a7d40e3810c50b21839bc61b2b9ae1b96b0b00b4452017966e4401".

(** What [main] prints, one constructor per group of [print] calls. *)
Inductive line : Type :=
| ProofPoints (pA : Z * Z) (pB : (Z * Z) * (Z * Z)) (pC : Z * Z)
| PubSignals (signals : list Z)
| DebugInfo (hex_dumps : list string).

(** [main], from the bytes of the receipt on. *)
Definition main (receipt_bytes : list byte) : run line unit :=
  let r := parse_receipt receipt_bytes in
  let w := parse_seal (seal r) in
  let a_x := bytes_to_uint256_be (a_x_bytes w) in
  let a_y := bytes_to_uint256_be (a_y_bytes w) in
  let b_x_0 := bytes_to_uint256_be (b_x_c0_bytes w) in
  let b_x_1 := bytes_to_uint256_be (b_x_c1_bytes w) in
  let b_y_0 := bytes_to_uint256_be (b_y_c0_bytes w) in
  let b_y_1 := bytes_to_uint256_be (b_y_c1_bytes w) in
  let c_x := bytes_to_uint256_be (c_x_bytes w) in
  let c_y := bytes_to_uint256_be (c_y_bytes w) in
  bind (print (ProofPoints (a_x, a_y) ((b_x_0, b_x_1), (b_y_0, b_y_1)) (c_x, c_y)))
    (fun _ =>
  let '(control_a0, control_a1) := split_digest (image_id r) in
  let '(claim_c0, claim_c1) := split_digest (claim_digest r) in
  bind (eval BN254_CONTROL_ID_BE) (fun control_id =>
  let bn254_id := int_from_bytes_big control_id in
  bind (print (PubSignals [control_a0; control_a1; claim_c0; claim_c1; bn254_id]))
    (fun _ =>
  print (DebugInfo
           [bytes_hex (image_id r); bytes_hex (claim_digest r);
            bytes_hex (a_x_bytes w); bytes_hex (a_y_bytes w);
            bytes_hex (b_x_c0_bytes w); bytes_hex (b_x_c1_bytes w);
            bytes_hex (c_x_bytes w); bytes_hex (c_y_bytes w)])))).

(** The five public signals printed by a run, if it printed them. *)
Definition pub_signals (m : run line unit) : option (list Z) :=
  head (omap (fun l => match l with PubSignals s => Some s | _ => None end) (fst m)).

End ConvertProof.

(** ** scripts/compare_vk_constants.py *)

Module CompareVk.
Import Py.

(** RISC Zero constants (from risc0-groth16-3.0.3/src/verifier.rs). *)
Definition RISC0_CONSTANTS : gmap string string :=
  list_to_map [
    ("ALPHA_X", "20491192805390485299153009773594534940189261866228447918068658471970481763042");
    ("ALPHA_Y", "9383485363053290200918347156157836566562967994039712273449902621266178545958");
    ("BETA_X1", "4252822878758300859123897981450591353533073413197771768651442665752259397132");
    ("BETA_X2", "6375614351688725206403948262868962793625744043794305715222011528459656738731");
    ("BETA_Y1", "21847035105528745403288232691147584728191162732299865338377159692350059136679");
    ("BETA_Y2", "10505242626370262277552901082094356697409835680220590971873171140371331206856");
    ("GAMMA_X1", "11559732032986387107991004021392285783925812861821192530917403151452391805634");
    ("GAMMA_X2", "10857046999023057135944570762232829481370756359578518086990519993285655852781");
    ("GAMMA_Y1", "4082367875863433681332203403145435568316851327593401208105741076214120093531");
    ("GAMMA_Y2", "8495653923123431417604973247489272438418190587263600148770280649306958101930");
    ("DELTA_X1", "1668323501672964604911431804142266013250380587483576094566949227275849579036");
    ("DELTA_X2", "12043754404802191763554326994664886008979042643626290185762540825416902247219");
    ("DELTA_Y1", "7710631539206257456743780535472368339139328733484942210876916214502466455394");
    ("DELTA_Y2", "13740680757317479711909903993315946540841369848973133181051452051592786724563");
    ("IC0_X", "8446592859352799428420270221449902464741693648963397251242447530457567083492");
    ("IC0_Y", "1064796367193003797175961162477173481551615790032213185848276823815288302804");
    ("IC1_X", "3179835575189816632597428042194253779818690147323192973511715175294048485951");
    ("IC1_Y", "20895841676865356752879376687052266198216014795822152491318012491767775979074");
    ("IC2_X", "5332723250224941161709478398807683311971555792614491788690328996478511465287");
    ("IC2_Y", "21199491073419440416471372042641226693637837098357067793586556692319371762571");
    ("IC3_X", "12457994489566736295787256452575216703923664299075106359829199968023158780583");
    ("IC3_Y", "19706766271952591897761291684837117091856807401404423804318744964752784280790");
    ("IC4_X", "19617808913178163826953378459323299110911217259216006187355745713323154132237");
    ("IC4_Y", "21663537384585072695701846972542344484111393047775983928357046779215877070466");
    ("IC5_X", "6834578911681792552110317589222010969491336870276623105249474534788043166867");
    ("IC5_Y", "15060583660288623605191393599883223885678013570733629274538391874953353488393")
  ]%string.

(** Our contract constants (from contracts/zk-verifier/src/lib.rs). *)
Definition OUR_CONSTANTS : gmap string string :=
  list_to_map [
    ("ALPHA_G1_X", "e2f26dbea299f5223b646cb1fb33eadb059d9407559d7441dfd902e3a79a4d2d");
    ("ALPHA_G1_Y", "26194d00ffca76f0010323190a8389ce45e39f2060ecd861b0ce373c50ddbe14");
    ("BETA_G2_X_C0", "abb73dc17fbc13021e2471e0c08bd67d8401f52b73d6d07483794cad4778180e");
    ("BETA_G2_X_C1", "0c06f33bbc4c79a9cadef253a68084d382f17788f885c9afd176f7cb2f036709");
    ("BETA_G2_Y_C0", "c8ced07a54067fd5a905ea3ec6b796f892912f4dd2233131c7a857a4b1c13917");
    ("BETA_G2_Y_C1", "a74623114d9aa69d370d7a6bc4defdaa3c8c3fd947e8f5994a708ae0d1fb4c30");
    ("GAMMA_G2_X_C0", "edf692d95cbdde46ddda5ef7d422436779445c5e66006a42761e1f12efde0018");
    ("GAMMA_G2_X_C1", "c212f3aeb785e49712e7a9353349aaf1255dfb31b7bf60723a480d9293938e19");
    ("GAMMA_G2_Y_C0", "aa7dfa6601cce64c7bd3430c69e7d1e38f40cb8d8071ab4aeb6d8cdba55ec812");
    ("GAMMA_G2_Y_C1", "5b9722d1dcdaac55f38eb37033314bbc95330c69ad999eec75f05f58d0890609");
    ("DELTA_G2_X_C0", "33033e7fea1f40604eaacf699d4be9aacc577054a0db22d9129a1728ff85a01a");
    ("DELTA_G2_X_C1", "1c3af829b62bf4914c0bcf2c81a4bd577190eff5f194ee9bac95faefd53cb003");
    ("DELTA_G2_Y_C0", "d3c63f7d18df42711cea2f9ed5742d0b2d8318831767e837e857f7cb1ff3601e");
    ("DELTA_G2_Y_C1", "6207030d94d2915cca2872fb6e3668a8aec918d5460849f6190b204f13100c11");
    ("IC0_X", "e43bdc655d0f9d730535554d9caa611ddd152c081a06a932a8e1d5dc259aac12");
    ("IC0_Y", "d4ac80e90ec6232bee3e0fd3a2f56f106985891c913117d97abe1e5844a75a02");
    ("IC1_X", "3f42a188f683d869873ccc4c119442e57b056e03e2fa92f2028c97bc20b90707");
    ("IC1_Y", "4266ff870765a482373803c25555d5d2ac8134f67b35bcf7549558b794a0322e");
    ("IC2_X", "47c30f85444697fdf436e348711c011115963f855197243e4b39e6cbe236ca0b");
    ("IC2_Y", "8b9bdffcb153c109f4f7b86dfad435842a4e71683dfa29373acf48cf9a7cde2e");
    ("IC3_X", "a7f2042e11f9255afbb6c6e2c3accb88e401f2aac21c097c92b3fbdb99f98a1b");
    ("IC3_Y", "d6cc9c674ff09c3e7f15601ad886d550c8812a199f9422576f1b2ea96aa2912b");
    ("IC4_X", "0dcd6c075ada6ed0ddfece1d4a2d005f61a7d5df0b75c18a5b2374d64e495f2b");
    ("IC4_Y", "825eadb26516e7c512f9148ff86fa7b863a8b9cb7f81bacbb9aa2020ad20e52f");
    ("IC5_X", "93d4c4b1200394d5253cce2f25a59b862ee8e4cd43686603faa09d5d0d3c1c0f");
    ("IC5_Y", "09e8690bbd01aa8782f608362fbbc88b2d4807b3070d8cfef625f474fffc4b21")
  ]%string.

(** Mapping between RISC Zero names and our names. *)
Definition mappings : list (string * string) :=
  [ ("ALPHA_X", "ALPHA_G1_X"); ("ALPHA_Y", "ALPHA_G1_Y");
    ("BETA_X1", "BETA_G2_X_C0"); ("BETA_X2", "BETA_G2_X_C1");
    ("BETA_Y1", "BETA_G2_Y_C0"); ("BETA_Y2", "BETA_G2_Y_C1");
    ("GAMMA_X1", "GAMMA_G2_X_C0"); ("GAMMA_X2", "GAMMA_G2_X_C1");
    ("GAMMA_Y1", "GAMMA_G2_Y_C0"); ("GAMMA_Y2", "GAMMA_G2_Y_C1");
    ("DELTA_X1", "DELTA_G2_X_C0"); ("DELTA_X2", "DELTA_G2_X_C1");
    ("DELTA_Y1", "DELTA_G2_Y_C0"); ("DELTA_Y2", "DELTA_G2_Y_C1");
    ("IC0_X", "IC0_X"); ("IC0_Y", "IC0_Y"); ("IC1_X", "IC1_X");
    ("IC1_Y", "IC1_Y"); ("IC2_X", "IC2_X"); ("IC2_Y", "IC2_Y");
    ("IC3_X", "IC3_X"); ("IC3_Y", "IC3_Y"); ("IC4_X", "IC4_X");
    ("IC4_Y", "IC4_Y"); ("IC5_X", "IC5_X"); ("IC5_Y", "IC5_Y") ]%string.

(** Convert decimal string to 32-byte little-endian hex. *)
Definition decimal_to_little_endian_hex (decimal_str : string) : outcome string :=
  obind (int_of_str decimal_str) (fun num =>
  obind (int_to_bytes_big num 32) (fun big_endian_bytes =>
  let little_endian_bytes := rev big_endian_bytes in
  Returned (bytes_hex little_endian_bytes))).

(** An entry of the [mismatches] list. *)
Record mismatch : Type := {
  m_risc0_name : string;
  m_our_name : string;
  m_risc0_hex : string;
  m_our_hex : string
}.

(** What [compare_constants] prints, one constructor per group of
    [print] calls (banners and blank lines left out):
    - [Compared]: the line with the check mark or the cross and the
      two names;
    - [Values]: the two value lines under a cross;
    - [AllMatch], [Found n]: the summary;
    - [Detail]: one block of the detailed list of mismatches. *)
Inductive line : Type :=
| Compared (matched : bool) (risc0_name our_name : string)
| Values (risc0_hex our_hex : string)
| AllMatch
| Found (n : nat)
| Detail (m : mismatch).

(** The two variables the loop updates. *)
Record loop_state : Type := {
  all_match : bool;
  mismatches : list mismatch
}.

Section Tables.
Variables risc0_constants our_constants : gmap string string.

(** The body of the [for] loop. *)
Definition compare_pair (st : loop_state) (names : string * string)
  : run line loop_state :=
  let '(risc0_name, our_name) := names in
  bind (eval (obind (getitem risc0_constants risc0_name)
                decimal_to_little_endian_hex)) (fun risc0_hex =>
  bind (eval (getitem our_constants our_name)) (fun our_hex =>
  let matched := String.eqb risc0_hex our_hex in
  bind (print (Compared matched risc0_name our_name)) (fun _ =>
  if matched then ret st
  else
    let st' :=
      {| all_match := false;
         mismatches :=
           mismatches st ++
             [ {| m_risc0_name := risc0_name; m_our_name := our_name;
                  m_risc0_hex := risc0_hex; m_our_hex := our_hex |} ] |} in
    bind (print (Values risc0_hex our_hex)) (fun _ => ret st')))).

Fixpoint compare_loop (pairs : list (string * string)) (st : loop_state)
  : run line loop_state :=
  match pairs with
  | [] => ret st
  | names :: rest =>
      bind (compare_pair st names) (compare_loop rest)
  end.

Fixpoint print_details (ms : list mismatch) : run line unit :=
  match ms with
  | [] => ret tt
  | m :: rest => bind (print (Detail m)) (fun _ => print_details rest)
  end.

(** [compare_constants] over given tables and mapping list. *)
Definition compare_constants_on (pairs : list (string * string)) : run line Z :=
  bind (compare_loop pairs {| all_match := true; mismatches := [] |})
    (fun st =>
       if all_match st then
         bind (print AllMatch) (fun _ => ret 0)
       else
         bind (print (Found (length (mismatches st)))) (fun _ =>
         bind (print_details (mismatches st)) (fun _ => ret 1))).
End Tables.

(** Compare RISC Zero constants with our constants. *)
Definition compare_constants : run line Z :=
  compare_constants_on RISC0_CONSTANTS OUR_CONSTANTS mappings.

End CompareVk.

(** ** The specification's own wording, as definitions *)

Module Spec.
Import Py.

(** Big-endian reading of a byte sequence: the byte at position [k]
    weighs [256 ^ (length - 1 - k)]. *)
Fixpoint big_endian_reading (w : list byte) : Z :=
  match w with
  | [] => 0
  | b :: rest => byte_val b * 256 ^ Z.of_nat (length rest) + big_endian_reading rest
  end.

(** Byte [j] of the reversed 32-byte digest. *)
Definition reversed_byte (digest : list byte) (j : nat) : byte :=
  nth (31 - j) digest Byte.x00.

(** The 16 reversed bytes from [start] on, followed by 16 zero bytes. *)
Definition padded_half (digest : list byte) (start : nat) : list byte :=
  map (fun k => if (k <? 16)%nat then reversed_byte digest (start + k)
                else Byte.x00) (seq 0 32).

(** [split(digest) = (low, high)] as section 4.3 words it. *)
Definition split (digest : list byte) : Z * Z :=
  (big_endian_reading (padded_half digest 16),
   big_endian_reading (padded_half digest 0)).

(** The [length] low-order base-256 digits of [n], least significant
    first. *)
Fixpoint little_endian_bytes (length : nat) (n : Z) : list byte :=
  match length with
  | O => []
  | S k => byte_of_Z (n mod 256) :: little_endian_bytes k (n / 256)
  end.

(** The stored encoding of a constant: 32 little-endian bytes in
    lowercase hex. *)
Definition little_endian_hex (n : Z) : string :=
  bytes_hex (little_endian_bytes 32 n).

(** [s'] is [s] with the byte at one position changed. *)
Definition single_byte_change (s s' : string) : Prop :=
  exists (pre post : string) (c c' : ascii),
    c <> c' /\
    s = (pre ++ String c post)%string /\
    s' = (pre ++ String c' post)%string.

(** The 32 bytes of which the first [k] are 0xff and the others 0. *)
Definition ones_then_zeros (k : nat) : list byte :=
  repeat Byte.xff k ++ repeat Byte.x00 (32 - k).

(** Scenario A's digest: 31 zero bytes then 0x01. *)
Definition digest_one : list byte := repeat Byte.x00 31 ++ [Byte.x01].

(** *** The cross-checker's report, as section 4.4 words it *)

Section Report.
Import CompareVk.
Variables risc0_constants our_constants : gmap string string.

(** The two canonical hex strings of a mapped pair: the decimal entry
    canonicalised, the stored hex entry as it is. *)
Definition canonical (names : string * string) : outcome (string * string) :=
  obind (obind (getitem risc0_constants (fst names))
           decimal_to_little_endian_hex) (fun risc0_hex =>
  obind (getitem our_constants (snd names)) (fun our_hex =>
  Returned (risc0_hex, our_hex))).

(** Every name of the mapping list is a key of its table, and every
    decimal entry converts: [values] gives the canonical strings. *)
Definition well_formed (values : string * string -> string * string)
  (pairs : list (string * string)) : Prop :=
  Forall (fun names => canonical names = Returned (values names)) pairs.

Definition matches (v : string * string) : bool := String.eqb (fst v) (snd v).

(** What is reported for one pair. *)
Definition pair_report (names : string * string) (v : string * string)
  : list line :=
  if matches v then [Compared true (fst names) (snd names)]
  else [Compared false (fst names) (snd names); Values (fst v) (snd v)].

(** The mismatch collected for one pair, if any. *)
Definition pair_mismatch (names : string * string) (v : string * string)
  : list mismatch :=
  if matches v then []
  else [ {| m_risc0_name := fst names; m_our_name := snd names;
            m_risc0_hex := fst v; m_our_hex := snd v |} ].

(** The ordered list of all mismatches. *)
Definition all_mismatches (values : string * string -> string * string)
  (pairs : list (string * string)) : list mismatch :=
  flat_map (fun names => pair_mismatch names (values names)) pairs.

Definition summary (ms : list mismatch) : list line :=
  match ms with
  | [] => [AllMatch]
  | _ :: _ => Found (length ms) :: map Detail ms
  end.

(** The whole report: one entry per mapped pair, then the summary. *)
Definition report (values : string * string -> string * string)
  (pairs : list (string * string)) : list line :=
  flat_map (fun names => pair_report names (values names)) pairs
  ++ summary (all_mismatches values pairs).

Definition status (ms : list mismatch) : Z :=
  match ms with [] => 0 | _ :: _ => 1 end.

(** The decimal entry and the hex entry of a mapped pair encode the
    same unsigned integer below 2^256. *)
Definition same_integer (names : string * string) : Prop :=
  exists (decimal_str : string) (n : Z),
    risc0_constants !! fst names = Some decimal_str /\
    int_of_str decimal_str = Returned n /\
    0 <= n < 2 ^ 256 /\
    our_constants !! snd names = Some (little_endian_hex n).

End Report.

(** The canonical values after the hex entry under [our_name] has been
    replaced by [our_hex]: the pairs that read it get the new string. *)
Definition with_our_hex (our_name our_hex : string)
  (values : string * string -> string * string)
  (names : string * string) : string * string :=
  if String.eqb (snd names) our_name then (fst (values names), our_hex)
  else values names.

(** The canonical values after the decimal entry under [risc0_name] has
    been replaced by one that canonicalises to [risc0_hex]. *)
Definition with_risc0_hex (risc0_name risc0_hex : string)
  (values : string * string -> string * string)
  (names : string * string) : string * string :=
  if String.eqb (fst names) risc0_name then (risc0_hex, snd (values names))
  else values names.

(** Small tables for examples: one constant, 258, under the key [K]. *)
Definition example_risc0 : gmap string string := {[ "K"%string := "258"%string ]}.
Definition example_ours : gmap string string :=
  {[ "K"%string := little_endian_hex 258 ]}.

(** Larger tables for examples: [K] agrees on 258, [L] holds 259 against
    a stored 7, and [N] holds a negative decimal entry. *)
Definition example_risc0_three : gmap string string :=
  <["N"%string := "-1"%string]>
    (<["L"%string := "259"%string]> {[ "K"%string := "258"%string ]}).
Definition example_ours_three : gmap string string :=
  <["L"%string := little_endian_hex 7]> {[ "K"%string := little_endian_hex 258 ]}.

End Spec.

(** ** Further notions used to state properties of the two scripts *)

Module Props.
Import Py.

(** Little-endian reading of a byte sequence: the byte at position [k]
    weighs [256 ^ k]. *)
Fixpoint little_endian_value (data : list byte) : Z :=
  match data with
  | [] => 0
  | b :: rest => byte_val b + 256 * little_endian_value rest
  end.

(** The integers a printed line of [main] shows as uint256 literals. *)
Definition printed_integers (l : ConvertProof.line) : list Z :=
  match l with
  | ConvertProof.ProofPoints (a_x, a_y) ((b_x_0, b_x_1), (b_y_0, b_y_1)) (c_x, c_y) =>
      [a_x; a_y; b_x_0; b_x_1; b_y_0; b_y_1; c_x; c_y]
  | ConvertProof.PubSignals signals => signals
  | ConvertProof.DebugInfo _ => []
  end.

(** The proof points printed by a run of [main], if any. *)
Definition proof_points (m : run ConvertProof.line unit)
  : option ((Z * Z) * ((Z * Z) * (Z * Z)) * (Z * Z)) :=
  head (omap (fun l => match l with
                       | ConvertProof.ProofPoints pA pB pC => Some (pA, pB, pC)
                       | _ => None
                       end) (fst m)).

(** A decimal literal without sign, space or underscore: one or more
    digits. *)
Definition is_digit (c : ascii) : bool :=
  match digit_value c with Some _ => true | None => false end.

Definition digits_only (s : string) : bool :=
  match list_ascii_of_string s with
  | [] => false
  | cs => forallb is_digit cs
  end.

(** The number a sequence of digits writes in base 10. *)
Definition digits_value (cs : list ascii) : Z :=
  fold_left (fun acc c => acc * 10 + default 0 (digit_value c)) cs 0.

(** The canonical values of a pair, with a placeholder where the
    evaluation of the pair raises. *)
Definition canonical_values (risc0_constants our_constants : gmap string string)
  (names : string * string) : string * string :=
  match Spec.canonical risc0_constants our_constants names with
  | Returned v => v
  | Raised _ => (EmptyString, EmptyString)
  end.

(** The pairs of names of the comparison lines of a transcript, in
    order. *)
Definition compared_pairs (lines : list CompareVk.line) : list (string * string) :=
  omap (fun l => match l with
                 | CompareVk.Compared _ r o => Some (r, o)
                 | _ => None
                 end) lines.

(** The pairs of names of the comparison lines that carry a cross. *)
Definition crossed_pairs (lines : list CompareVk.line) : list (string * string) :=
  omap (fun l => match l with
                 | CompareVk.Compared false r o => Some (r, o)
                 | _ => None
                 end) lines.

(** The pairs of names of the detailed mismatch blocks. *)
Definition detailed_pairs (lines : list CompareVk.line) : list (string * string) :=
  omap (fun l => match l with
                 | CompareVk.Detail m =>
                     Some (CompareVk.m_risc0_name m, CompareVk.m_our_name m)
                 | _ => None
                 end) lines.

(** The mapping list with the two components of every G2 coordinate
    exchanged: X1 with C1, X2 with C0. *)
Definition mappings_swapped : list (string * string) :=
  [ ("ALPHA_X", "ALPHA_G1_X"); ("ALPHA_Y", "ALPHA_G1_Y");
    ("BETA_X1", "BETA_G2_X_C1"); ("BETA_X2", "BETA_G2_X_C0");
    ("BETA_Y1", "BETA_G2_Y_C1"); ("BETA_Y2", "BETA_G2_Y_C0");
    ("GAMMA_X1", "GAMMA_G2_X_C1"); ("GAMMA_X2", "GAMMA_G2_X_C0");
    ("GAMMA_Y1", "GAMMA_G2_Y_C1"); ("GAMMA_Y2", "GAMMA_G2_Y_C0");
    ("DELTA_X1", "DELTA_G2_X_C1"); ("DELTA_X2", "DELTA_G2_X_C0");
    ("DELTA_Y1", "DELTA_G2_Y_C1"); ("DELTA_Y2", "DELTA_G2_Y_C0");
    ("IC0_X", "IC0_X"); ("IC0_Y", "IC0_Y"); ("IC1_X", "IC1_X");
    ("IC1_Y", "IC1_Y"); ("IC2_X", "IC2_X"); ("IC2_Y", "IC2_Y");
    ("IC3_X", "IC3_X"); ("IC3_Y", "IC3_Y"); ("IC4_X", "IC4_X");
    ("IC4_Y", "IC4_Y"); ("IC5_X", "IC5_X"); ("IC5_Y", "IC5_Y") ]%string.

End Props.

(** ** Facts about the primitives *)

Module PyFacts.
Import Py.

Lemma byte_val_range (b : byte) : 0 <= byte_val b < 256.
Proof. destruct b; vm_compute; split; congruence. Qed.

Lemma byte_of_Z_byte_val (b : byte) : byte_of_Z (byte_val b) = b.
Proof. destruct b; reflexivity. Qed.

Lemma byte_val_byte_of_Z (z : Z) : byte_val (byte_of_Z z) = z mod 256.
Proof.
  assert (Hr : 0 <= z mod 256 < 256) by (apply Z.mod_pos_bound; lia).
  unfold byte_of_Z, byte_val.
  destruct (Byte.of_N (Z.to_N (z mod 256))) as [b|] eqn:E.
  - apply Byte.to_of_N in E. rewrite E. lia.
  - apply Byte.of_N_None_iff in E. lia.
Qed.

Lemma byte_val_inj (b b' : byte) : byte_val b = byte_val b' -> b = b'.
Proof.
  intros H. rewrite <- (byte_of_Z_byte_val b), <- (byte_of_Z_byte_val b').
  now rewrite H.
Qed.

Lemma byte_val_zero (b : byte) : byte_val b = 0 <-> b = Byte.x00.
Proof.
  split; [intros H; apply byte_val_inj; exact H | intros ->; reflexivity].
Qed.

(** *** [slice] *)

Lemma length_slice {A} (a b : nat) (l : list A) :
  length (slice a b l) = Nat.min (b - a) (length l - a).
Proof. unfold slice. now rewrite length_take, length_drop. Qed.

Lemma slice_rev_high {A} (l : list A) :
  length l = 32%nat -> slice 16 32 (rev l) = rev (slice 0 16 l).
Proof.
  intros Hl. unfold slice. cbn [Nat.sub]. rewrite drop_0.
  rewrite skipn_rev, Hl. cbn [Nat.sub].
  rewrite firstn_all2; [reflexivity|].
  rewrite length_rev, length_take. lia.
Qed.

Lemma slice_rev_low {A} (l : list A) :
  length l = 32%nat -> slice 0 16 (rev l) = rev (slice 16 32 l).
Proof.
  intros Hl. unfold slice. cbn [Nat.sub]. rewrite drop_0.
  rewrite firstn_rev, Hl. cbn [Nat.sub].
  rewrite (firstn_all2 (n := 16)); [reflexivity|].
  rewrite length_drop. lia.
Qed.

Lemma slice_app {A} (a b c : nat) (l : list A) :
  (a <= b <= c)%nat -> slice a b l ++ slice b c l = slice a c l.
Proof.
  intros Habc. unfold slice.
  replace (drop b l) with (drop (b - a) (drop a l))
    by (rewrite drop_drop; f_equal; lia).
  rewrite take_take_drop. f_equal. lia.
Qed.

Lemma slice_take {A} (a b n : nat) (l : list A) :
  (b <= n)%nat -> slice a b (take n l) = slice a b l.
Proof.
  intros Hbn. unfold slice.
  rewrite skipn_firstn_comm, take_take. f_equal. lia.
Qed.

(** *** [int.from_bytes] *)

Lemma fold_from_bytes (l : list byte) (acc : Z) :
  fold_left (fun a b => a * 256 + byte_val b) l acc
  = acc * 256 ^ Z.of_nat (length l) + int_from_bytes_big l.
Proof.
  unfold int_from_bytes_big. revert acc.
  induction l as [|b l IH]; intros acc.
  - cbn. lia.
  - cbn [fold_left length]. rewrite IH, (IH (0 * 256 + byte_val b)).
    rewrite Nat2Z.inj_succ, Z.pow_succ_r by lia. ring.
Qed.

Lemma int_from_bytes_big_cons (b : byte) (l : list byte) :
  int_from_bytes_big (b :: l)
  = byte_val b * 256 ^ Z.of_nat (length l) + int_from_bytes_big l.
Proof.
  unfold int_from_bytes_big at 1. cbn [fold_left].
  rewrite fold_from_bytes. ring.
Qed.

Lemma int_from_bytes_big_app (l l' : list byte) :
  int_from_bytes_big (l ++ l')
  = int_from_bytes_big l * 256 ^ Z.of_nat (length l') + int_from_bytes_big l'.
Proof.
  unfold int_from_bytes_big at 1. rewrite fold_left_app.
  now rewrite fold_from_bytes.
Qed.

Lemma int_from_bytes_big_range (l : list byte) :
  0 <= int_from_bytes_big l < 256 ^ Z.of_nat (length l).
Proof.
  induction l as [|b l IH].
  - cbn. lia.
  - rewrite int_from_bytes_big_cons. cbn [length].
    rewrite Nat2Z.inj_succ, Z.pow_succ_r by lia.
    pose proof (byte_val_range b). nia.
Qed.

Lemma int_from_bytes_big_zeros (k : nat) :
  int_from_bytes_big (repeat Byte.x00 k) = 0.
Proof.
  induction k as [|k IH]; [reflexivity|].
  cbn [repeat]. rewrite int_from_bytes_big_cons, IH.
  change (byte_val Byte.x00) with 0. lia.
Qed.

Lemma int_from_bytes_big_padded (l : list byte) (k : nat) :
  int_from_bytes_big (l ++ repeat Byte.x00 k)
  = int_from_bytes_big l * 256 ^ Z.of_nat k.
Proof.
  rewrite int_from_bytes_big_app, int_from_bytes_big_zeros, repeat_length.
  lia.
Qed.

Lemma int_from_bytes_big_zero_iff (l : list byte) :
  int_from_bytes_big l = 0 <-> Forall (fun b => b = Byte.x00) l.
Proof.
  induction l as [|b l IH].
  - split; [constructor | reflexivity].
  - rewrite int_from_bytes_big_cons.
    pose proof (byte_val_range b) as Hb.
    pose proof (int_from_bytes_big_range l) as Hl.
    assert (Hp : 0 < 256 ^ Z.of_nat (length l)) by (apply Z.pow_pos_nonneg; lia).
    split.
    + intros H.
      assert (Hb0 : byte_val b = 0) by nia.
      constructor; [now apply byte_val_zero|].
      apply IH. rewrite Hb0 in H. lia.
    + intros H. inversion H as [|? ? Hb0 Hl0]; subst.
      apply IH in Hl0. rewrite Hl0. change (byte_val Byte.x00) with 0. lia.
Qed.

(** *** [int.to_bytes] *)

Lemma length_be_bytes (k : nat) (n : Z) : length (be_bytes k n) = k.
Proof.
  revert n. induction k as [|k IH]; intros n; [reflexivity|].
  cbn [be_bytes]. rewrite length_app, IH. cbn. lia.
Qed.

Lemma be_bytes_from_bytes (l : list byte) :
  be_bytes (length l) (int_from_bytes_big l) = l.
Proof.
  induction l as [|b l IH] using rev_ind; [reflexivity|].
  rewrite length_app, Nat.add_comm. cbn [length Nat.add be_bytes].
  rewrite int_from_bytes_big_app. cbn [length].
  change (256 ^ Z.of_nat 1) with 256.
  rewrite int_from_bytes_big_cons. cbn [length].
  change (int_from_bytes_big []) with 0.
  change (256 ^ Z.of_nat 0) with 1.
  pose proof (byte_val_range b) as Hb.
  replace ((int_from_bytes_big l * 256 + (byte_val b * 1 + 0)) / 256)
    with (int_from_bytes_big l)
    by (apply (Z.div_unique _ 256 _ (byte_val b)); lia).
  replace ((int_from_bytes_big l * 256 + (byte_val b * 1 + 0)) mod 256)
    with (byte_val b)
    by (apply (Z.mod_unique _ 256 (int_from_bytes_big l)); lia).
  now rewrite IH, byte_of_Z_byte_val.
Qed.

Lemma from_bytes_be_bytes (k : nat) (n : Z) :
  0 <= n < 256 ^ Z.of_nat k -> int_from_bytes_big (be_bytes k n) = n.
Proof.
  revert n. induction k as [|k IH]; intros n Hn.
  - cbn in *. lia.
  - cbn [be_bytes]. rewrite int_from_bytes_big_app. cbn [length].
    change (256 ^ Z.of_nat 1) with 256.
    rewrite int_from_bytes_big_cons. cbn [length].
    change (int_from_bytes_big []) with 0.
    change (256 ^ Z.of_nat 0) with 1.
    rewrite byte_val_byte_of_Z, Z.mod_mod by lia.
    rewrite IH.
    + pose proof (Z.div_mod n 256). lia.
    + rewrite Nat2Z.inj_succ, Z.pow_succ_r in Hn by lia.
      split; [apply Z.div_pos; lia | apply Z.div_lt_upper_bound; lia].
Qed.

Lemma int_to_bytes_big_ok (n : Z) (k : nat) :
  0 <= n < 256 ^ Z.of_nat k ->
  int_to_bytes_big n k = Returned (be_bytes k n).
Proof.
  intros Hn. unfold int_to_bytes_big.
  destruct (Z.ltb_spec n 0); [lia|].
  destruct (Z.leb_spec (256 ^ Z.of_nat k) n); [lia|reflexivity].
Qed.

Lemma rev_be_bytes (k : nat) (n : Z) :
  rev (be_bytes k n) = Spec.little_endian_bytes k n.
Proof.
  revert n. induction k as [|k IH]; intros n; [reflexivity|].
  cbn [be_bytes Spec.little_endian_bytes].
  now rewrite rev_app_distr, IH.
Qed.

(** *** Encodings are injective *)

Lemma hex_pair_decodes (b : byte) :
  let hi := (Byte.to_N b / 16)%N in
  let lo := (Byte.to_N b mod 16)%N in
  is_ascii_space (hex_digit hi) = false /\
  hex_value (hex_digit hi) = Some hi /\
  hex_value (hex_digit lo) = Some lo /\
  byte_of_Z (Z.of_N (16 * hi + lo)) = b.
Proof. destruct b; vm_compute; repeat split. Qed.

Lemma bytes_fromhex_hex (data : list byte) :
  bytes_fromhex (bytes_hex data) = Returned data.
Proof.
  induction data as [|b data IH]; [reflexivity|].
  cbn [bytes_hex bytes_fromhex].
  destruct (hex_pair_decodes b) as (Hsp & Hhi & Hlo & Hb).
  cbv zeta in Hsp, Hhi, Hlo, Hb.
  rewrite Hsp, Hhi, Hlo, IH. cbn [obind]. now rewrite Hb.
Qed.

Lemma bytes_hex_inj (data data' : list byte) :
  bytes_hex data = bytes_hex data' -> data = data'.
Proof.
  intros H. apply (f_equal bytes_fromhex) in H.
  rewrite !bytes_fromhex_hex in H. now injection H.
Qed.

Lemma little_endian_hex_inj (n m : Z) :
  0 <= n < 2 ^ 256 -> 0 <= m < 2 ^ 256 ->
  Spec.little_endian_hex n = Spec.little_endian_hex m -> n = m.
Proof.
  intros Hn Hm H. unfold Spec.little_endian_hex in H.
  apply bytes_hex_inj in H. rewrite <- !rev_be_bytes in H.
  apply (f_equal (@rev byte)) in H. rewrite !rev_involutive in H.
  apply (f_equal int_from_bytes_big) in H.
  now rewrite !from_bytes_be_bytes in H
    by (change (256 ^ Z.of_nat 32) with (2 ^ 256); assumption).
Qed.

End PyFacts.

(** ** Properties of the proof converter *)

Module ConvertProofSpec.
Import Py PyFacts ConvertProof.
Import Spec (ones_then_zeros, digest_one).

(** Each output of [split_digest] is its 16-byte half shifted left by
    128 bits. *)
Lemma split_digest_shift (digest : list byte) :
  split_digest digest
  = (int_from_bytes_big (slice 16 32 (rev digest)) * 2 ^ 128,
     int_from_bytes_big (slice 0 16 (rev digest)) * 2 ^ 128).
Proof.
  unfold split_digest. cbv zeta.
  now rewrite !int_from_bytes_big_padded.
Qed.

Lemma half_range (l : list byte) (a b : nat) :
  (b - a <= 16)%nat -> 0 <= int_from_bytes_big (slice a b l) < 2 ^ 128.
Proof.
  intros Hab.
  pose proof (int_from_bytes_big_range (slice a b l)) as Hr.
  assert (256 ^ Z.of_nat (length (slice a b l)) <= 256 ^ 16).
  { apply Z.pow_le_mono_r; [lia|]. rewrite length_slice. lia. }
  change (2 ^ 128) with (256 ^ 16). lia.
Qed.

Lemma big_endian_reading_from_bytes (w : list byte) :
  Spec.big_endian_reading w = int_from_bytes_big w.
Proof.
  induction w as [|b w IH]; [reflexivity|].
  cbn [Spec.big_endian_reading]. now rewrite int_from_bytes_big_cons, IH.
Qed.

Ltac thirty_two digest H :=
  do 32 (destruct digest as [|? digest]; [discriminate H|]);
  destruct digest; [clear H | discriminate H].

Lemma padded_half_slices (digest : list byte) :
  length digest = 32%nat ->
  Spec.padded_half digest 16 = slice 16 32 (rev digest) ++ repeat Byte.x00 16 /\
  Spec.padded_half digest 0 = slice 0 16 (rev digest) ++ repeat Byte.x00 16.
Proof. intros H. thirty_two digest H. split; reflexivity. Qed.

(** C3. For every 32-byte digest, [split_digest] computes what the
    specification's algorithm words: the digest is reversed, [low] is the
    big-endian reading of reversed bytes 16..31 followed by 16 zero
    bytes, [high] that of reversed bytes 0..15 followed by 16 zero
    bytes. *)
Theorem split_digest_refines_spec (digest : list byte) :
  length digest = 32%nat -> split_digest digest = Spec.split digest.
Proof.
  intros H. destruct (padded_half_slices digest H) as [Hlow Hhigh].
  unfold Spec.split, split_digest. cbv zeta.
  now rewrite !big_endian_reading_from_bytes, Hlow, Hhigh.
Qed.

Lemma split_digest_refines_spec_witness :
  length (ones_then_zeros 5) = 32%nat /\
  split_digest (ones_then_zeros 5) = Spec.split (ones_then_zeros 5).
Proof.
  split; [reflexivity | apply split_digest_refines_spec; reflexivity].
Defined.

(** C10. For every 32-byte digest both outputs of [split_digest] are
    multiples of 2^128: [low] is the big-endian value of reversed bytes
    16..31 times 2^128, [high] that of reversed bytes 0..15 times 2^128,
    their 128 least significant bits are zero, and an output is zero
    exactly when its half of the digest (bytes 0..15 for [low], bytes
    16..31 for [high]) is all zero. *)
Theorem split_digest_multiple_of_2_128 (digest : list byte) :
  length digest = 32%nat ->
  let low := fst (split_digest digest) in
  let high := snd (split_digest digest) in
  low = int_from_bytes_big (slice 16 32 (rev digest)) * 2 ^ 128 /\
  high = int_from_bytes_big (slice 0 16 (rev digest)) * 2 ^ 128 /\
  low mod 2 ^ 128 = 0 /\ high mod 2 ^ 128 = 0 /\
  (forall i, 0 <= i < 128 ->
             Z.testbit low i = false /\ Z.testbit high i = false) /\
  (low = 0 <-> Forall (fun b => b = Byte.x00) (slice 0 16 digest)) /\
  (high = 0 <-> Forall (fun b => b = Byte.x00) (slice 16 32 digest)).
Proof.
  intros H low high. subst low high.
  rewrite split_digest_shift. cbn [fst snd].
  repeat split.
  - apply Z.mod_mul. lia.
  - apply Z.mod_mul. lia.
  - rewrite Z.mul_pow2_bits by lia. apply Z.testbit_neg_r. lia.
  - rewrite Z.mul_pow2_bits by lia. apply Z.testbit_neg_r. lia.
  - intros H0. apply Z.mul_eq_0_l in H0; [|lia].
    apply int_from_bytes_big_zero_iff in H0.
    rewrite slice_rev_high in H0 by exact H.
    apply Forall_rev in H0. now rewrite rev_involutive in H0.
  - intros H0. apply Z.mul_eq_0. left.
    apply int_from_bytes_big_zero_iff.
    rewrite slice_rev_high by exact H. now apply Forall_rev.
  - intros H0. apply Z.mul_eq_0_l in H0; [|lia].
    apply int_from_bytes_big_zero_iff in H0.
    rewrite slice_rev_low in H0 by exact H.
    apply Forall_rev in H0. now rewrite rev_involutive in H0.
  - intros H0. apply Z.mul_eq_0. left.
    apply int_from_bytes_big_zero_iff.
    rewrite slice_rev_low by exact H. now apply Forall_rev.
Qed.

Lemma split_digest_multiple_of_2_128_witness :
  length (ones_then_zeros 20) = 32%nat /\
  fst (split_digest (ones_then_zeros 20)) mod 2 ^ 128 = 0 /\
  snd (split_digest (ones_then_zeros 20)) mod 2 ^ 128 = 0.
Proof.
  assert (H : length (ones_then_zeros 20) = 32%nat) by reflexivity.
  pose proof (split_digest_multiple_of_2_128 (ones_then_zeros 20) H) as P.
  cbv zeta in P. destruct P as (_ & _ & Hl & Hh & _).
  exact (conj H (conj Hl Hh)).
Defined.

(** C1 fails as stated: for the digest of 32 bytes 0xff both outputs
    are 2^256 - 2^128, far above 2^128. *)
Lemma split_digest_not_below_2_128 :
  length (ones_then_zeros 32) = 32%nat /\
  split_digest (ones_then_zeros 32) = (2 ^ 256 - 2 ^ 128, 2 ^ 256 - 2 ^ 128) /\
  ~ (fst (split_digest (ones_then_zeros 32)) < 2 ^ 128 /\
     snd (split_digest (ones_then_zeros 32)) < 2 ^ 128).
Proof.
  split; [reflexivity|]. split; [vm_compute; reflexivity|].
  vm_compute. intros [H _]. discriminate H.
Qed.

(** C1, amended. For every 32-byte digest both outputs of
    [split_digest] are non-negative and strictly less than 2^256; it is
    their quotient by 2^128 (the 16 significant bytes) that is strictly
    less than 2^128, and an output that is not zero is at least 2^128. *)
Theorem split_digest_bounds (digest : list byte) :
  length digest = 32%nat ->
  let low := fst (split_digest digest) in
  let high := snd (split_digest digest) in
  0 <= low < 2 ^ 256 /\ 0 <= high < 2 ^ 256 /\
  0 <= low / 2 ^ 128 < 2 ^ 128 /\ 0 <= high / 2 ^ 128 < 2 ^ 128 /\
  (low = 0 \/ 2 ^ 128 <= low) /\ (high = 0 \/ 2 ^ 128 <= high).
Proof.
  intros _ low high. subst low high.
  rewrite split_digest_shift. cbn [fst snd].
  pose proof (half_range (rev digest) 16 32 ltac:(lia)) as Hl.
  pose proof (half_range (rev digest) 0 16 ltac:(lia)) as Hh.
  rewrite !Z.div_mul by lia.
  change (2 ^ 256) with (2 ^ 128 * 2 ^ 128).
  repeat split; nia.
Qed.

Lemma split_digest_bounds_witness :
  length (ones_then_zeros 7) = 32%nat /\
  0 <= fst (split_digest (ones_then_zeros 7)) < 2 ^ 256 /\
  0 <= snd (split_digest (ones_then_zeros 7)) < 2 ^ 256.
Proof.
  assert (H : length (ones_then_zeros 7) = 32%nat) by reflexivity.
  pose proof (split_digest_bounds (ones_then_zeros 7) H) as P.
  cbv zeta in P. destruct P as (Hl & Hh & _).
  exact (conj H (conj Hl Hh)).
Defined.

(** C9 fails as stated: for the digest of 31 zero bytes then 0x01 the
    high output is not the integer 1. *)
Lemma split_digest_one_high_not_1 :
  digest_one = repeat Byte.x00 31 ++ [Byte.x01] /\
  ~ (snd (split_digest digest_one) = 1 /\ fst (split_digest digest_one) = 0).
Proof.
  split; [reflexivity|]. vm_compute. intros [H _]. discriminate H.
Qed.

(** C9, amended. The digest of 31 zero bytes then 0x01 reversed is 0x01
    then 31 zero bytes, and [split_digest] yields [low = 0] and
    [high = 2^248], the 256-bit word 0x0100...00 whose only non-zero byte
    is its first byte 0x01. *)
Theorem split_digest_one :
  rev digest_one = Byte.x01 :: repeat Byte.x00 31 /\
  split_digest digest_one = (0, 2 ^ 248) /\
  int_to_bytes_big (snd (split_digest digest_one)) 32
  = Returned (Byte.x01 :: repeat Byte.x00 31).
Proof. repeat split; vm_compute; reflexivity. Qed.

(** C4. For every 32-byte word [w], [bytes_to_uint256_be w] written back
    as 32 little-endian bytes (as the scripts do it: [to_bytes(32, 'big')]
    then reversed, which are the 32 base-256 digits least significant
    first) is [w] again. *)
Theorem bytes_to_uint256_be_round_trip (w : list byte) :
  length w = 32%nat ->
  obind (int_to_bytes_big (bytes_to_uint256_be w) 32)
    (fun big_endian_bytes => Returned (rev big_endian_bytes))
  = Returned w /\
  Spec.little_endian_bytes 32 (bytes_to_uint256_be w) = w.
Proof.
  intros H. unfold bytes_to_uint256_be. cbv zeta.
  pose proof (int_from_bytes_big_range (rev w)) as Hr.
  rewrite length_rev, H in Hr.
  assert (E : rev (be_bytes 32 (int_from_bytes_big (rev w))) = w).
  { rewrite <- H at 1. rewrite <- (length_rev w), be_bytes_from_bytes.
    apply rev_involutive. }
  split.
  - rewrite int_to_bytes_big_ok by exact Hr. cbn [obind]. now rewrite E.
  - now rewrite <- rev_be_bytes.
Qed.

Lemma bytes_to_uint256_be_round_trip_witness :
  length (ones_then_zeros 3) = 32%nat /\
  Spec.little_endian_bytes 32 (bytes_to_uint256_be (ones_then_zeros 3))
  = ones_then_zeros 3.
Proof.
  assert (H : length (ones_then_zeros 3) = 32%nat) by reflexivity.
  exact (conj H (proj2 (bytes_to_uint256_be_round_trip (ones_then_zeros 3) H))).
Defined.

(** *** What [main] prints *)

Lemma control_id_bytes :
  BN254_CONTROL_ID_BE
  = Returned
      [Byte.x2f; Byte.x4d; Byte.x79; Byte.xbb; Byte.xb8; Byte.xa7; Byte.xd4;
       Byte.x0e; Byte.x38; Byte.x10; Byte.xc5; Byte.x0b; Byte.x21; Byte.x83;
       Byte.x9b; Byte.xc6; Byte.x1b; Byte.x2b; Byte.x9a; Byte.xe1; Byte.xb9;
       Byte.x6b; Byte.x0b; Byte.x00; Byte.xb4; Byte.x45; Byte.x20; Byte.x17;
       Byte.x96; Byte.x6e; Byte.x44; Byte.x01].
Proof. vm_compute. reflexivity. Qed.

(** [main] never raises and prints its three groups of lines, whatever
    the bytes of the receipt. *)
Lemma main_prints (receipt_bytes : list byte) :
  let r := parse_receipt receipt_bytes in
  let w := parse_seal (seal r) in
  main receipt_bytes
  = ([ ProofPoints
         (bytes_to_uint256_be (a_x_bytes w), bytes_to_uint256_be (a_y_bytes w))
         ((bytes_to_uint256_be (b_x_c0_bytes w), bytes_to_uint256_be (b_x_c1_bytes w)),
          (bytes_to_uint256_be (b_y_c0_bytes w), bytes_to_uint256_be (b_y_c1_bytes w)))
         (bytes_to_uint256_be (c_x_bytes w), bytes_to_uint256_be (c_y_bytes w));
       PubSignals
         [ fst (split_digest (image_id r)); snd (split_digest (image_id r));
           fst (split_digest (claim_digest r)); snd (split_digest (claim_digest r));
           0x2f4d79bbb8a7d40e3810c50b21839bc61b2b9ae1b96b0b00b4452017966e4401 ];
       DebugInfo
         [ bytes_hex (image_id r); bytes_hex (claim_digest r);
           bytes_hex (a_x_bytes w); bytes_hex (a_y_bytes w);
           bytes_hex (b_x_c0_bytes w); bytes_hex (b_x_c1_bytes w);
           bytes_hex (c_x_bytes w); bytes_hex (c_y_bytes w) ] ],
     Returned tt).
Proof.
  intros r w. unfold main. fold r. fold w.
  destruct (split_digest (image_id r)) as [control_a0 control_a1].
  destruct (split_digest (claim_digest r)) as [claim_c0 claim_c1].
  rewrite control_id_bytes. reflexivity.
Qed.

(** C8. The public signals printed for a receipt are, in this order,
    the two outputs of [split_digest] on the image id (bytes 0..31), the
    two outputs of [split_digest] on the claim digest (bytes 32..63), and
    the fixed control id: the 32 bytes of the hex literal read as a
    big-endian unsigned integer. *)
Theorem public_signals_vector (receipt_bytes : list byte) :
  let image_id := slice 0 32 receipt_bytes in
  let claim_digest := slice 32 64 receipt_bytes in
  let '(control_low, control_high) := split_digest image_id in
  let '(claim_low, claim_high) := split_digest claim_digest in
  pub_signals (main receipt_bytes)
  = Some [ control_low; control_high; claim_low; claim_high;
           0x2f4d79bbb8a7d40e3810c50b21839bc61b2b9ae1b96b0b00b4452017966e4401 ] /\
  obind BN254_CONTROL_ID_BE (fun b => Returned (int_from_bytes_big b))
  = Returned 0x2f4d79bbb8a7d40e3810c50b21839bc61b2b9ae1b96b0b00b4452017966e4401.
Proof.
  intros image_id claim_digest.
  rewrite main_prints. cbn [pub_signals fst omap head parse_receipt
    ConvertProof.image_id ConvertProof.claim_digest].
  fold image_id. fold claim_digest.
  destruct (split_digest image_id), (split_digest claim_digest).
  split; [reflexivity|].
  rewrite control_id_bytes. vm_compute. reflexivity.
Qed.

(** C2 fails as stated: a receipt of three bytes is not rejected; [main]
    returns normally and prints everything, from truncated fields. *)
Lemma short_receipt_not_rejected :
  length [Byte.x01; Byte.x02; Byte.x03] <> 464%nat /\
  main [Byte.x01; Byte.x02; Byte.x03]
  = ([ ProofPoints (0, 0) ((0, 0), (0, 0)) (0, 0);
       PubSignals
         [ 0; 0x030201 * 2 ^ 128; 0; 0;
           0x2f4d79bbb8a7d40e3810c50b21839bc61b2b9ae1b96b0b00b4452017966e4401 ];
       DebugInfo ["010203"; ""; ""; ""; ""; ""; ""; ""]%string ],
     Returned tt) /\
  ~ (exists e, snd (main [Byte.x01; Byte.x02; Byte.x03]) = Raised e).
Proof.
  split; [cbn; lia|]. split; [vm_compute; reflexivity|].
  intros [e He]. vm_compute in He. discriminate He.
Qed.

(** C2, amended. The receipt is not checked for length: [main] accepts
    every byte sequence and returns normally after printing its three
    groups of lines.  The four fields are the slices at offsets 0, 32, 64
    and 320, clipped to the bytes there are; bytes from offset 464 on are
    ignored; for a receipt of exactly 464 bytes the fields have 32, 32,
    256 and 144 bytes and together are the receipt. *)
Theorem receipt_accepted_at_any_length (receipt_bytes : list byte) :
  let r := parse_receipt receipt_bytes in
  let n := length receipt_bytes in
  (exists l1 l2 l3, main receipt_bytes = ([l1; l2; l3], Returned tt)) /\
  length (image_id r) = Nat.min 32 n /\
  length (claim_digest r) = Nat.min 32 (n - 32) /\
  length (seal r) = Nat.min 256 (n - 64) /\
  length (journal r) = Nat.min 144 (n - 320) /\
  parse_receipt (firstn 464 receipt_bytes) = r /\
  (n = 464%nat ->
   image_id r ++ claim_digest r ++ seal r ++ journal r = receipt_bytes).
Proof.
  intros r n. subst r n. split; [|repeat split].
  - rewrite main_prints. eauto.
  - cbn [parse_receipt image_id]. rewrite length_slice. lia.
  - cbn [parse_receipt claim_digest]. rewrite length_slice. lia.
  - cbn [parse_receipt seal]. rewrite length_slice. lia.
  - cbn [parse_receipt journal]. rewrite length_slice. lia.
  - unfold parse_receipt. now rewrite !slice_take by lia.
  - intros Hn. cbn [parse_receipt image_id claim_digest seal journal].
    rewrite (slice_app 64 320 464), (slice_app 32 64 464), (slice_app 0 32 464)
      by lia.
    unfold slice. rewrite drop_0. apply take_ge. cbn [Nat.sub]. lia.
Qed.

Lemma receipt_accepted_at_any_length_witness :
  length (repeat Byte.x07 464) = 464%nat /\
  image_id (parse_receipt (repeat Byte.x07 464))
  ++ claim_digest (parse_receipt (repeat Byte.x07 464))
  ++ seal (parse_receipt (repeat Byte.x07 464))
  ++ journal (parse_receipt (repeat Byte.x07 464))
  = repeat Byte.x07 464.
Proof.
  assert (H : length (repeat Byte.x07 464) = 464%nat) by reflexivity.
  pose proof (receipt_accepted_at_any_length (repeat Byte.x07 464)) as P.
  cbv zeta in P. destruct P as (_ & _ & _ & _ & _ & _ & Hcat).
  exact (conj H (Hcat H)).
Defined.

End ConvertProofSpec.

(** ** Properties of the constant cross-checker *)

Module CompareVkSpec.
Import Py PyFacts CompareVk Spec.

Section Loop.
Variables risc0_constants our_constants : gmap string string.

Local Abbreviation canonical := (Spec.canonical risc0_constants our_constants).
Local Abbreviation compare_pair := (CompareVk.compare_pair risc0_constants our_constants).
Local Abbreviation compare_loop := (CompareVk.compare_loop risc0_constants our_constants).

Lemma compare_pair_ok (st : loop_state) (names v : string * string) :
  canonical names = Returned v ->
  compare_pair st names
  = (pair_report names v,
     Returned {| all_match := all_match st && matches v;
                 mismatches := mismatches st ++ pair_mismatch names v |}).
Proof.
  destruct names as [risc0_name our_name], st as [am ms].
  unfold Spec.canonical, CompareVk.compare_pair, pair_report, pair_mismatch, matches.
  cbn [fst snd].
  destruct (obind (getitem risc0_constants risc0_name) decimal_to_little_endian_hex)
    as [risc0_hex|e]; [|discriminate].
  destruct (getitem our_constants our_name) as [our_hex|e]; [|discriminate].
  intros [= <-]. cbn [obind eval bind print ret fst snd app all_match mismatches].
  destruct (String.eqb risc0_hex our_hex); cbn.
  - now rewrite andb_true_r, app_nil_r.
  - now rewrite andb_false_r.
Qed.

Lemma compare_pair_raise (st : loop_state) (names : string * string) e :
  canonical names = Raised e -> compare_pair st names = ([], Raised e).
Proof.
  destruct names as [risc0_name our_name].
  unfold Spec.canonical, CompareVk.compare_pair. cbn [fst snd].
  destruct (obind (getitem risc0_constants risc0_name) decimal_to_little_endian_hex)
    as [risc0_hex|e']; [|now intros [= <-]].
  destruct (getitem our_constants our_name) as [our_hex|e']; [discriminate|].
  now intros [= <-].
Qed.

Lemma compare_loop_ok values (pairs : list (string * string)) (st : loop_state) :
  well_formed risc0_constants our_constants values pairs ->
  compare_loop pairs st
  = (flat_map (fun names => pair_report names (values names)) pairs,
     Returned {| all_match :=
                   all_match st && forallb (fun names => matches (values names)) pairs;
                 mismatches := mismatches st ++ all_mismatches values pairs |}).
Proof.
  intros Hwf. revert st. induction Hwf as [|names pairs Hc _ IH]; intros st.
  - destruct st. cbn. now rewrite andb_true_r, app_nil_r.
  - cbn [CompareVk.compare_loop]. rewrite (compare_pair_ok _ _ _ Hc).
    cbn [bind]. rewrite IH. cbn [all_match mismatches flat_map forallb].
    unfold all_mismatches. cbn [flat_map].
    now rewrite andb_assoc, app_assoc.
Qed.

Lemma compare_loop_raise values (before after : list (string * string))
  (names : string * string) (st : loop_state) e :
  well_formed risc0_constants our_constants values before ->
  canonical names = Raised e ->
  compare_loop (before ++ names :: after) st
  = (flat_map (fun names => pair_report names (values names)) before, Raised e).
Proof.
  intros Hwf Hraise. revert st. induction Hwf as [|first before Hc _ IH]; intros st.
  - cbn [app CompareVk.compare_loop flat_map].
    now rewrite (compare_pair_raise _ _ _ Hraise).
  - cbn [app CompareVk.compare_loop]. rewrite (compare_pair_ok _ _ _ Hc).
    cbn [bind]. now rewrite IH.
Qed.

Lemma print_details_lines (ms : list mismatch) :
  print_details ms = (map Detail ms, Returned tt).
Proof.
  induction ms as [|m ms IH]; [reflexivity|].
  cbn [print_details map]. unfold bind, print. now rewrite IH.
Qed.

Lemma all_match_no_mismatch values (pairs : list (string * string)) :
  forallb (fun names => matches (values names)) pairs = true
  <-> all_mismatches values pairs = [].
Proof.
  unfold all_mismatches.
  induction pairs as [|names pairs IH]; [easy|].
  cbn [forallb flat_map]. unfold pair_mismatch at 1.
  destruct (matches (values names)); cbn; [exact IH | easy].
Qed.

Lemma compare_constants_on_ok values (pairs : list (string * string)) :
  well_formed risc0_constants our_constants values pairs ->
  compare_constants_on risc0_constants our_constants pairs
  = (report values pairs, Returned (status (all_mismatches values pairs))).
Proof.
  intros Hwf. unfold compare_constants_on, report.
  rewrite (compare_loop_ok values pairs _ Hwf).
  cbn [bind all_match mismatches andb app].
  pose proof (all_match_no_mismatch values pairs) as Hiff.
  destruct (forallb _ pairs).
  - rewrite (proj1 Hiff eq_refl). reflexivity.
  - destruct (all_mismatches values pairs) as [|m ms] eqn:E.
    + discriminate (proj2 Hiff eq_refl).
    + rewrite print_details_lines. unfold bind, print, ret.
      now rewrite app_nil_r.
Qed.

Lemma all_mismatches_filter values (pairs : list (string * string)) :
  all_mismatches values pairs
  = map (fun names =>
           {| m_risc0_name := fst names; m_our_name := snd names;
              m_risc0_hex := fst (values names);
              m_our_hex := snd (values names) |})
      (List.filter (fun names => negb (matches (values names))) pairs).
Proof.
  unfold all_mismatches.
  induction pairs as [|names pairs IH]; [reflexivity|].
  cbn [flat_map List.filter]. unfold pair_mismatch at 1.
  destruct (matches (values names)); cbn [negb app map]; now rewrite IH.
Qed.

Lemma matches_eq (v : string * string) : matches v = true <-> fst v = snd v.
Proof. unfold matches. apply String.eqb_eq. Qed.

(** When every mapped pair can be evaluated: the whole report, the
    collected mismatches and the status. *)
Lemma well_formed_run
  (values : string * string -> string * string)
  (pairs : list (string * string)) :
  well_formed risc0_constants our_constants values pairs ->
  let result := compare_constants_on risc0_constants our_constants pairs in
  let ms := all_mismatches values pairs in
  result = (report values pairs, Returned (status ms)) /\
  ms = map (fun names =>
              {| m_risc0_name := fst names; m_our_name := snd names;
                 m_risc0_hex := fst (values names);
                 m_our_hex := snd (values names) |})
         (List.filter (fun names => negb (matches (values names))) pairs) /\
  (exit_status result = 0
   <-> Forall (fun names => fst (values names) = snd (values names)) pairs) /\
  (Exists (fun names => fst (values names) <> snd (values names)) pairs ->
   exit_status result = 1).
Proof.
  intros Hwf result ms. subst result ms.
  rewrite (compare_constants_on_ok values pairs Hwf).
  cbn [exit_status].
  assert (Hst : status (all_mismatches values pairs) = 0
                <-> Forall (fun names => fst (values names) = snd (values names)) pairs).
  { split.
    - intros H.
      assert (E : all_mismatches values pairs = [])
        by (destruct (all_mismatches values pairs); [reflexivity | discriminate H]).
      apply all_match_no_mismatch in E. rewrite forallb_forall in E.
      apply List.Forall_forall. intros x Hx. apply matches_eq. exact (E x Hx).
    - intros H.
      assert (E : forallb (fun names => matches (values names)) pairs = true).
      { apply forallb_forall. intros x Hx. apply matches_eq.
        rewrite List.Forall_forall in H. exact (H x Hx). }
      apply all_match_no_mismatch in E. now rewrite E. }
  repeat split.
  - apply all_mismatches_filter.
  - apply Hst.
  - apply Hst.
  - intros Hex.
    destruct (all_mismatches values pairs) eqn:E; [|reflexivity].
    exfalso. apply List.Exists_exists in Hex. destruct Hex as (names & Hin & Hne).
    assert (H0 : status (@nil mismatch) = 0) by reflexivity.
    apply Hst in H0. rewrite List.Forall_forall in H0. exact (Hne (H0 names Hin)).
Qed.

End Loop.


(** *** Cross-check symmetry *)

Lemma single_byte_change_neq (s s' : string) :
  single_byte_change s s' -> s <> s'.
Proof.
  intros (pre & post & c & c' & Hc & -> & ->).
  induction pre as [|a pre IH]; cbn; intros H.
  - injection H as H. exact (Hc H).
  - injection H as H. exact (IH H).
Qed.

Lemma decimal_to_little_endian_hex_ok (decimal_str : string) (n : Z) :
  int_of_str decimal_str = Returned n -> 0 <= n < 2 ^ 256 ->
  decimal_to_little_endian_hex decimal_str = Returned (little_endian_hex n).
Proof.
  intros Hs Hn. unfold decimal_to_little_endian_hex. rewrite Hs. cbn [obind].
  rewrite int_to_bytes_big_ok by exact Hn. cbn [obind].
  unfold little_endian_hex. now rewrite rev_be_bytes.
Qed.

Section Symmetry.
Variables risc0_constants our_constants : gmap string string.

Lemma same_integer_canonical (names : string * string) :
  same_integer risc0_constants our_constants names ->
  exists n,
    0 <= n < 2 ^ 256 /\
    obind (getitem risc0_constants (fst names)) decimal_to_little_endian_hex
    = Returned (little_endian_hex n) /\
    our_constants !! snd names = Some (little_endian_hex n).
Proof.
  intros (decimal_str & n & Hr & Hs & Hn & Ho).
  exists n. split; [exact Hn|]. split; [|exact Ho].
  unfold getitem. rewrite Hr. cbn [obind].
  now apply decimal_to_little_endian_hex_ok.
Qed.

End Symmetry.

End CompareVkSpec.

(** ** Further properties of the proof converter *)

Module ConvertProofMore.
Import Py PyFacts ConvertProof Props.

(** *** [bytes_to_uint256_be] *)

Lemma bytes_to_uint256_be_cons (b : byte) (data : list byte) :
  bytes_to_uint256_be (b :: data) = byte_val b + 256 * bytes_to_uint256_be data.
Proof.
  unfold bytes_to_uint256_be. cbn [rev].
  rewrite int_from_bytes_big_app, (int_from_bytes_big_cons b []).
  cbn [length]. change (int_from_bytes_big []) with 0.
  change (256 ^ Z.of_nat 1) with 256. change (256 ^ Z.of_nat 0) with 1. ring.
Qed.

Lemma bytes_to_uint256_be_value (data : list byte) :
  bytes_to_uint256_be data = little_endian_value data.
Proof.
  induction data as [|b data IH]; [reflexivity|].
  now rewrite bytes_to_uint256_be_cons, IH.
Qed.

Lemma bytes_to_uint256_be_range (data : list byte) :
  0 <= bytes_to_uint256_be data < 256 ^ Z.of_nat (length data).
Proof.
  unfold bytes_to_uint256_be. rewrite <- (length_rev data).
  apply int_from_bytes_big_range.
Qed.

Lemma bytes_to_uint256_be_app (data data' : list byte) :
  bytes_to_uint256_be (data ++ data')
  = bytes_to_uint256_be data
    + 256 ^ Z.of_nat (length data) * bytes_to_uint256_be data'.
Proof.
  unfold bytes_to_uint256_be.
  rewrite rev_app_distr, int_from_bytes_big_app, length_rev. ring.
Qed.

Lemma bytes_to_uint256_be_zeros (data : list byte) :
  Forall (fun b => b = Byte.x00) data -> bytes_to_uint256_be data = 0.
Proof.
  intros H. unfold bytes_to_uint256_be.
  apply int_from_bytes_big_zero_iff. now apply Forall_rev.
Qed.

Lemma bytes_to_uint256_be_same_length_inj (data data' : list byte) :
  length data = length data' ->
  bytes_to_uint256_be data = bytes_to_uint256_be data' -> data = data'.
Proof.
  unfold bytes_to_uint256_be. intros Hlen Hval.
  rewrite <- (rev_involutive data), <- (rev_involutive data'). f_equal.
  rewrite <- (be_bytes_from_bytes (rev data)), <- (be_bytes_from_bytes (rev data')).
  now rewrite !length_rev, Hlen, Hval.
Qed.

(** X1. [bytes_to_uint256_be] reads its argument as a little-endian
    number, whatever its length: byte [k] weighs [256 ^ k]; the result is
    non-negative and below [256 ^ length], so below 2^256 for at most 32
    bytes. *)
Theorem bytes_to_uint256_be_little_endian (data : list byte) :
  bytes_to_uint256_be data = little_endian_value data /\
  0 <= bytes_to_uint256_be data < 256 ^ Z.of_nat (length data) /\
  ((length data <= 32)%nat -> bytes_to_uint256_be data < 2 ^ 256).
Proof.
  pose proof (bytes_to_uint256_be_range data) as Hr.
  split; [apply bytes_to_uint256_be_value|]. split; [exact Hr|].
  intros Hlen.
  assert (256 ^ Z.of_nat (length data) <= 256 ^ 32)
    by (apply Z.pow_le_mono_r; lia).
  change (2 ^ 256) with (256 ^ 32). lia.
Qed.

Lemma bytes_to_uint256_be_little_endian_witness :
  (length [Byte.x02; Byte.x01] <= 32)%nat /\
  bytes_to_uint256_be [Byte.x02; Byte.x01] < 2 ^ 256.
Proof.
  assert (H : (length [Byte.x02; Byte.x01] <= 32)%nat) by (cbn; lia).
  destruct (bytes_to_uint256_be_little_endian [Byte.x02; Byte.x01]) as (_ & _ & Hb).
  exact (conj H (Hb H)).
Defined.

(** X2. Zero bytes at the end of a word do not change its value: a word
    cut short reads as if it were padded with zero bytes. *)
Theorem bytes_to_uint256_be_trailing_zeros (data : list byte) (k : nat) :
  bytes_to_uint256_be (data ++ repeat Byte.x00 k) = bytes_to_uint256_be data.
Proof.
  rewrite bytes_to_uint256_be_app, (bytes_to_uint256_be_zeros (repeat Byte.x00 k)).
  - ring.
  - apply List.Forall_forall. intros b Hb. now apply repeat_spec in Hb.
Qed.

(** X3. Two words of the same length with the same value are the same
    word: on words of one length the conversion loses nothing. *)
Theorem bytes_to_uint256_be_injective (data data' : list byte) :
  length data = length data' ->
  bytes_to_uint256_be data = bytes_to_uint256_be data' -> data = data'.
Proof. apply bytes_to_uint256_be_same_length_inj. Qed.

Lemma bytes_to_uint256_be_injective_witness :
  length [Byte.x02; Byte.x01] = length [Byte.x02; Byte.x01] /\
  [Byte.x02; Byte.x01] = [Byte.x02; Byte.x01].
Proof.
  split; [reflexivity|].
  apply (bytes_to_uint256_be_injective [Byte.x02; Byte.x01] [Byte.x02; Byte.x01]);
    reflexivity.
Defined.

(** *** [split_digest] *)

Lemma digest_halves (digest : list byte) :
  length digest = 32%nat ->
  bytes_to_uint256_be digest
  = bytes_to_uint256_be (slice 0 16 digest)
    + 2 ^ 128 * bytes_to_uint256_be (slice 16 32 digest) /\
  0 <= bytes_to_uint256_be (slice 0 16 digest) < 2 ^ 128 /\
  0 <= bytes_to_uint256_be (slice 16 32 digest) < 2 ^ 128 /\
  split_digest digest
  = (bytes_to_uint256_be (slice 0 16 digest) * 2 ^ 128,
     bytes_to_uint256_be (slice 16 32 digest) * 2 ^ 128).
Proof.
  intros H.
  assert (Hcat : slice 0 16 digest ++ slice 16 32 digest = digest).
  { rewrite slice_app by lia. unfold slice. rewrite drop_0.
    apply take_ge. cbn [Nat.sub]. lia. }
  assert (Hl0 : length (slice 0 16 digest) = 16%nat) by (rewrite length_slice; lia).
  assert (Hl1 : length (slice 16 32 digest) = 16%nat) by (rewrite length_slice; lia).
  pose proof (bytes_to_uint256_be_range (slice 0 16 digest)) as R0.
  pose proof (bytes_to_uint256_be_range (slice 16 32 digest)) as R1.
  rewrite Hl0 in R0. rewrite Hl1 in R1.
  change (256 ^ Z.of_nat 16) with (2 ^ 128) in R0, R1.
  split; [|split; [exact R0|split; [exact R1|]]].
  - rewrite <- Hcat at 1. rewrite bytes_to_uint256_be_app, Hl0. reflexivity.
  - rewrite ConvertProofSpec.split_digest_shift.
    rewrite slice_rev_high, slice_rev_low by exact H.
    reflexivity.
Qed.

(** X4. On a 32-byte digest, [split_digest] cuts the number
    [bytes_to_uint256_be digest] in two: the first output is its 128 low
    bits and the second its 128 high bits, each shifted left by 128 bits;
    the number is recovered as [snd + fst / 2^128]. *)
Theorem split_digest_of_value (digest : list byte) :
  length digest = 32%nat ->
  let v := bytes_to_uint256_be digest in
  split_digest digest = ((v mod 2 ^ 128) * 2 ^ 128, (v / 2 ^ 128) * 2 ^ 128) /\
  v = snd (split_digest digest) + fst (split_digest digest) / 2 ^ 128.
Proof.
  intros H v. subst v.
  destruct (digest_halves digest H) as (Hv & R0 & R1 & Hs).
  set (lo := bytes_to_uint256_be (slice 0 16 digest)) in *.
  set (hi := bytes_to_uint256_be (slice 16 32 digest)) in *.
  assert (Hmod : bytes_to_uint256_be digest mod 2 ^ 128 = lo).
  { rewrite Hv. symmetry. apply (Z.mod_unique _ _ hi); lia. }
  assert (Hdiv : bytes_to_uint256_be digest / 2 ^ 128 = hi).
  { rewrite Hv. symmetry. apply (Z.div_unique _ _ _ lo); lia. }
  rewrite Hmod, Hdiv, Hs. split; [reflexivity|].
  cbn [fst snd]. rewrite Z.div_mul by lia. lia.
Qed.

Lemma split_digest_of_value_witness :
  length Spec.digest_one = 32%nat /\
  bytes_to_uint256_be Spec.digest_one
  = snd (split_digest Spec.digest_one) + fst (split_digest Spec.digest_one) / 2 ^ 128.
Proof.
  assert (H : length Spec.digest_one = 32%nat) by reflexivity.
  exact (conj H (proj2 (split_digest_of_value Spec.digest_one H))).
Defined.

(** X5. [split_digest] is injective on 32-byte digests: two digests
    with the same pair of outputs are equal. *)
Theorem split_digest_injective (digest digest' : list byte) :
  length digest = 32%nat -> length digest' = 32%nat ->
  split_digest digest = split_digest digest' -> digest = digest'.
Proof.
  intros H H' Heq.
  destruct (digest_halves digest H) as (Hv & _ & _ & Hs).
  destruct (digest_halves digest' H') as (Hv' & _ & _ & Hs').
  rewrite Hs, Hs' in Heq. injection Heq as Hlo Hhi.
  apply bytes_to_uint256_be_same_length_inj; [congruence|]. lia.
Qed.

Lemma split_digest_injective_witness :
  length Spec.digest_one = 32%nat /\ Spec.digest_one = Spec.digest_one.
Proof.
  split; [reflexivity|].
  apply (split_digest_injective Spec.digest_one Spec.digest_one); reflexivity.
Defined.

(** X6. On a digest of at most 16 bytes (as a short receipt gives),
    [split_digest] puts the whole value in the second output: the result
    is [(0, bytes_to_uint256_be digest * 2^128)]; it is [(0, 0)] on the
    empty digest. *)
Theorem split_digest_short (digest : list byte) :
  (length digest <= 16)%nat ->
  split_digest digest = (0, bytes_to_uint256_be digest * 2 ^ 128).
Proof.
  intros H. rewrite ConvertProofSpec.split_digest_shift.
  unfold slice, bytes_to_uint256_be. rewrite drop_0. cbn [Nat.sub].
  rewrite (drop_ge (rev digest) 16) by (rewrite length_rev; lia).
  rewrite (take_ge (rev digest) 16) by (rewrite length_rev; lia).
  reflexivity.
Qed.

Lemma split_digest_short_witness :
  (length [Byte.x01; Byte.x02; Byte.x03] <= 16)%nat /\
  split_digest [Byte.x01; Byte.x02; Byte.x03] = (0, 0x030201 * 2 ^ 128).
Proof.
  assert (H : (length [Byte.x01; Byte.x02; Byte.x03] <= 16)%nat) by (cbn; lia).
  exact (conj H (split_digest_short [Byte.x01; Byte.x02; Byte.x03] H)).
Defined.

(** *** [main] *)

Lemma slice_slice {A} (a b c d : nat) (l : list A) :
  (c + b <= d)%nat -> slice a b (slice c d l) = slice (c + a) (c + b) l.
Proof.
  intros H. unfold slice.
  rewrite skipn_firstn_comm, take_take, drop_drop. f_equal. lia.
Qed.

Lemma slice_padded (a b : nat) (l zeros : list byte) :
  Forall (fun x => x = Byte.x00) zeros ->
  bytes_to_uint256_be (slice a b (l ++ zeros)) = bytes_to_uint256_be (slice a b l).
Proof.
  intros Hz. unfold slice. rewrite skipn_app, firstn_app.
  rewrite bytes_to_uint256_be_app, (bytes_to_uint256_be_zeros (take _ (drop _ zeros))).
  - ring.
  - now apply Forall_take, Forall_drop.
Qed.

Lemma word_fits (a b : nat) (l : list byte) :
  (b - a <= 32)%nat -> 0 <= bytes_to_uint256_be (slice a b l) < 2 ^ 256.
Proof.
  intros H. pose proof (bytes_to_uint256_be_range (slice a b l)) as Hr.
  assert (256 ^ Z.of_nat (length (slice a b l)) <= 256 ^ 32)
    by (apply Z.pow_le_mono_r; [lia | rewrite length_slice; lia]).
  change (2 ^ 256) with (256 ^ 32). lia.
Qed.

Lemma split_digest_fits (digest : list byte) :
  0 <= fst (split_digest digest) < 2 ^ 256 /\
  0 <= snd (split_digest digest) < 2 ^ 256.
Proof.
  rewrite ConvertProofSpec.split_digest_shift. cbn [fst snd].
  pose proof (ConvertProofSpec.half_range (rev digest) 16 32 ltac:(lia)).
  pose proof (ConvertProofSpec.half_range (rev digest) 0 16 ltac:(lia)).
  change (2 ^ 256) with (2 ^ 128 * 2 ^ 128). nia.
Qed.

(** The proof points, by the offsets of their words in the receipt. *)
Lemma main_proof_points (receipt_bytes : list byte) :
  let word a b := bytes_to_uint256_be (slice a b receipt_bytes) in
  proof_points (main receipt_bytes)
  = Some ((word 64 96, word 96 128)%nat,
          ((word 128 160, word 160 192)%nat, (word 192 224, word 224 256)%nat),
          (word 256 288, word 288 320)%nat).
Proof.
  intros word. subst word. rewrite ConvertProofSpec.main_prints.
  cbn [proof_points fst omap head parse_receipt parse_seal seal
       a_x_bytes a_y_bytes b_x_c0_bytes b_x_c1_bytes b_y_c0_bytes b_y_c1_bytes
       c_x_bytes c_y_bytes].
  rewrite !slice_slice by lia. reflexivity.
Qed.

(** X7. What [main] prints depends on the first 320 bytes of the
    receipt only: the journal (bytes 320..463) and anything after it are
    never used. *)
Theorem main_ignores_journal (receipt_bytes receipt_bytes' : list byte) :
  firstn 320 receipt_bytes = firstn 320 receipt_bytes' ->
  main receipt_bytes = main receipt_bytes'.
Proof.
  intros H.
  assert (Hs : forall a b, (b <= 320)%nat ->
                           slice a b receipt_bytes = slice a b receipt_bytes').
  { intros a b Hb.
    rewrite <- (slice_take a b 320 receipt_bytes) by exact Hb.
    rewrite <- (slice_take a b 320 receipt_bytes') by exact Hb.
    now rewrite H. }
  rewrite !ConvertProofSpec.main_prints.
  cbn [parse_receipt image_id claim_digest seal].
  now rewrite (Hs 0%nat 32%nat), (Hs 32%nat 64%nat), (Hs 64%nat 320%nat) by lia.
Qed.

Lemma main_ignores_journal_witness :
  firstn 320 (repeat Byte.x07 464) = firstn 320 (repeat Byte.x07 320 ++ [Byte.xff]) /\
  main (repeat Byte.x07 464) = main (repeat Byte.x07 320 ++ [Byte.xff]).
Proof.
  assert (H : firstn 320 (repeat Byte.x07 464)
              = firstn 320 (repeat Byte.x07 320 ++ [Byte.xff]))
    by (vm_compute; reflexivity).
  exact (conj H (main_ignores_journal _ _ H)).
Defined.

(** X8. The eight proof-point values are the eight consecutive 32-byte
    words of the receipt from offset 64 on, each converted by
    [bytes_to_uint256_be], in the order of the seal: pA from offsets 64
    and 96, pB from 128, 160, 192 and 224 with no exchange inside a pair,
    pC from 256 and 288. *)
Theorem proof_points_by_offset (receipt_bytes : list byte) :
  let word a b := bytes_to_uint256_be (slice a b receipt_bytes) in
  proof_points (main receipt_bytes)
  = Some ((word 64 96, word 96 128)%nat,
          ((word 128 160, word 160 192)%nat, (word 192 224, word 224 256)%nat),
          (word 256 288, word 288 320)%nat).
Proof. apply main_proof_points. Qed.

(** X9. Every integer that [main] prints, the eight proof-point values
    and the five public signals, is non-negative and below 2^256,
    whatever the receipt. *)
Theorem printed_integers_fit_uint256 (receipt_bytes : list byte) :
  Forall (fun z => 0 <= z < 2 ^ 256)
    (flat_map printed_integers (fst (main receipt_bytes))).
Proof.
  rewrite ConvertProofSpec.main_prints.
  cbn [fst flat_map printed_integers app parse_seal
       a_x_bytes a_y_bytes b_x_c0_bytes b_x_c1_bytes b_y_c0_bytes b_y_c1_bytes
       c_x_bytes c_y_bytes].
  pose proof (split_digest_fits (image_id (parse_receipt receipt_bytes))) as [? ?].
  pose proof (split_digest_fits (claim_digest (parse_receipt receipt_bytes))) as [? ?].
  repeat (apply Forall_cons; split; [first [apply word_fits; lia | assumption | lia]|]).
  apply Forall_nil. exact I.
Qed.

(** X10. Zero bytes appended to a receipt do not change the proof
    points: a receipt cut short gives the proof points of the same
    receipt padded with zero bytes. *)
Theorem proof_points_zero_padding (receipt_bytes : list byte) (k : nat) :
  proof_points (main (receipt_bytes ++ repeat Byte.x00 k))
  = proof_points (main receipt_bytes).
Proof.
  assert (Hz : Forall (fun x => x = Byte.x00) (repeat Byte.x00 k)).
  { apply List.Forall_forall. intros b Hb. now apply repeat_spec in Hb. }
  rewrite !main_proof_points. cbv zeta.
  now rewrite !(slice_padded _ _ receipt_bytes _ Hz).
Qed.

End ConvertProofMore.

(** ** Further properties of the constant cross-checker *)

Module CompareVkMore.
Import Py PyFacts CompareVk Spec Props CompareVkSpec.

(** *** [decimal_to_little_endian_hex] *)

Lemma int_of_str_raises (s : string) (e : exception) :
  int_of_str s = Raised e -> e = ValueError.
Proof.
  unfold int_of_str. cbv zeta.
  destruct (parse_digits 0 true _); [|now intros [= <-]].
  destruct (_ <? _)%nat; [now intros [= <-] | discriminate].
Qed.

Lemma length_bytes_hex (data : list byte) :
  String.length (bytes_hex data) = (2 * length data)%nat.
Proof.
  induction data as [|b data IH]; [reflexivity|].
  cbn [bytes_hex String.length length]. rewrite IH. lia.
Qed.

Lemma length_little_endian_bytes (k : nat) (n : Z) :
  length (little_endian_bytes k n) = k.
Proof. rewrite <- rev_be_bytes, length_rev. apply length_be_bytes. Qed.

Lemma decimal_to_little_endian_hex_cases (decimal_str : string) :
  match int_of_str decimal_str with
  | Raised e => e = ValueError /\
                decimal_to_little_endian_hex decimal_str = Raised ValueError
  | Returned n =>
      if (0 <=? n) && (n <? 2 ^ 256)
      then decimal_to_little_endian_hex decimal_str = Returned (little_endian_hex n)
      else decimal_to_little_endian_hex decimal_str = Raised OverflowError
  end.
Proof.
  destruct (int_of_str decimal_str) as [n|e] eqn:E.
  - destruct (Z.leb_spec 0 n); destruct (Z.ltb_spec n (2 ^ 256)); cbn [andb].
    + apply decimal_to_little_endian_hex_ok; [exact E | lia].
    + unfold decimal_to_little_endian_hex, int_to_bytes_big. rewrite E. cbn [obind].
      destruct (Z.ltb_spec n 0); [lia|].
      change (256 ^ Z.of_nat 32) with (2 ^ 256).
      destruct (Z.leb_spec (2 ^ 256) n); [reflexivity | lia].
    + unfold decimal_to_little_endian_hex, int_to_bytes_big. rewrite E. cbn [obind].
      destruct (Z.ltb_spec n 0); [reflexivity | lia].
    + unfold decimal_to_little_endian_hex, int_to_bytes_big. rewrite E. cbn [obind].
      destruct (Z.ltb_spec n 0); [reflexivity | lia].
  - pose proof (int_of_str_raises _ _ E) as ->. split; [reflexivity|].
    unfold decimal_to_little_endian_hex. now rewrite E.
Qed.

(** X11. [decimal_to_little_endian_hex] returns exactly on the strings
    that [int()] reads as an integer [n] with [0 <= n < 2^256]; the result
    is then the 32 little-endian bytes of [n] in lowercase hex, a string of
    64 characters. *)
Theorem decimal_to_little_endian_hex_returns (decimal_str h : string) :
  (decimal_to_little_endian_hex decimal_str = Returned h
   <-> exists n, int_of_str decimal_str = Returned n /\
                 0 <= n < 2 ^ 256 /\ h = little_endian_hex n) /\
  (decimal_to_little_endian_hex decimal_str = Returned h -> String.length h = 64%nat).
Proof.
  pose proof (decimal_to_little_endian_hex_cases decimal_str) as Hc.
  assert (Hfwd : decimal_to_little_endian_hex decimal_str = Returned h ->
                 exists n, int_of_str decimal_str = Returned n /\
                           0 <= n < 2 ^ 256 /\ h = little_endian_hex n).
  { intros H. destruct (int_of_str decimal_str) as [n|e].
    - destruct (Z.leb_spec 0 n); destruct (Z.ltb_spec n (2 ^ 256));
        cbn [andb] in Hc; rewrite Hc in H; try discriminate H.
      injection H as <-. exists n. now repeat split.
    - destruct Hc as [_ Hc]. rewrite Hc in H. discriminate H. }
  split; [split; [exact Hfwd|] |].
  - intros (n & Hs & Hn & ->). now apply decimal_to_little_endian_hex_ok.
  - intros H. destruct (Hfwd H) as (n & _ & _ & ->).
    unfold little_endian_hex.
    now rewrite length_bytes_hex, length_little_endian_bytes.
Qed.

Lemma decimal_to_little_endian_hex_returns_witness :
  decimal_to_little_endian_hex "258" = Returned (little_endian_hex 258) /\
  String.length (little_endian_hex 258) = 64%nat.
Proof.
  destruct (decimal_to_little_endian_hex_returns "258" (little_endian_hex 258))
    as [Hiff Hlen].
  assert (H : decimal_to_little_endian_hex "258" = Returned (little_endian_hex 258)).
  { apply Hiff. exists 258. split; [reflexivity|]. split; [lia | reflexivity]. }
  exact (conj H (Hlen H)).
Defined.

(** X12. [decimal_to_little_endian_hex] raises [ValueError] exactly
    when [int()] rejects the string, and [OverflowError] exactly when the
    string reads as a negative integer or as one of 2^256 or more; it
    raises nothing else. *)
Theorem decimal_to_little_endian_hex_raises (decimal_str : string) (e : exception) :
  decimal_to_little_endian_hex decimal_str = Raised e
  <-> (e = ValueError /\ int_of_str decimal_str = Raised ValueError) \/
      (e = OverflowError /\
       exists n, int_of_str decimal_str = Returned n /\ (n < 0 \/ 2 ^ 256 <= n)).
Proof.
  pose proof (decimal_to_little_endian_hex_cases decimal_str) as Hc.
  destruct (int_of_str decimal_str) as [n|e0].
  - destruct (Z.leb_spec 0 n); destruct (Z.ltb_spec n (2 ^ 256));
      cbn [andb] in Hc; rewrite Hc; split.
    + discriminate.
    + intros [[_ H1] | (_ & m & [= <-] & Hm)]; [discriminate H1 | lia].
    + intros [= <-]. right. split; [reflexivity|]. exists n. split; [reflexivity|lia].
    + intros [[_ H1] | (-> & _)]; [discriminate H1 | reflexivity].
    + intros [= <-]. right. split; [reflexivity|]. exists n. split; [reflexivity|lia].
    + intros [[_ H1] | (-> & _)]; [discriminate H1 | reflexivity].
    + intros [= <-]. right. split; [reflexivity|]. exists n. split; [reflexivity|lia].
    + intros [[_ H1] | (-> & _)]; [discriminate H1 | reflexivity].
  - destruct Hc as [-> Hc]. rewrite Hc. split.
    + intros [= <-]. now left.
    + intros [[-> _] | (_ & m & Hm & _)]; [reflexivity | discriminate Hm].
Qed.

Lemma decimal_to_little_endian_hex_raises_witness :
  decimal_to_little_endian_hex "-1" = Raised OverflowError /\
  decimal_to_little_endian_hex "12a" = Raised ValueError.
Proof.
  split.
  - apply decimal_to_little_endian_hex_raises. right. split; [reflexivity|].
    exists (-1). split; [reflexivity | lia].
  - apply decimal_to_little_endian_hex_raises. left. split; reflexivity.
Defined.

(** *** [compare_constants] over any tables *)

Section Run.
Variables risc0_constants our_constants : gmap string string.

Local Abbreviation canonical := (Spec.canonical risc0_constants our_constants).
Local Abbreviation values := (canonical_values risc0_constants our_constants).
Local Abbreviation run_on := (compare_constants_on risc0_constants our_constants).

Lemma canonical_values_returned (names v : string * string) :
  canonical names = Returned v -> values names = v.
Proof. unfold canonical_values. now intros ->. Qed.

(** Either every pair evaluates, or there is a first pair that raises. *)
Lemma first_failure (pairs : list (string * string)) :
  well_formed risc0_constants our_constants values pairs \/
  exists before names after e,
    pairs = before ++ names :: after /\
    well_formed risc0_constants our_constants values before /\
    canonical names = Raised e.
Proof.
  induction pairs as [|names pairs IH]; [left; constructor|].
  destruct (canonical names) as [v|e] eqn:E.
  - destruct IH as [IH | (before & names' & after & e & -> & Hwf & Hr)].
    + left. constructor; [|exact IH].
      now rewrite (canonical_values_returned _ _ E).
    + right. exists (names :: before), names', after, e.
      split; [reflexivity|]. split; [|exact Hr].
      constructor; [|exact Hwf]. now rewrite (canonical_values_returned _ _ E).
  - right. exists [], names, pairs, e. split; [reflexivity|].
    split; [constructor | exact E].
Qed.

(** The two ways a run can end. *)
Lemma run_cases (pairs : list (string * string)) :
  (well_formed risc0_constants our_constants values pairs /\
   run_on pairs = (report values pairs, Returned (status (all_mismatches values pairs))))
  \/
  (exists before names after e,
      pairs = before ++ names :: after /\
      well_formed risc0_constants our_constants values before /\
      canonical names = Raised e /\
      run_on pairs
      = (flat_map (fun names => pair_report names (values names)) before, Raised e)).
Proof.
  destruct (first_failure pairs) as [Hwf | (before & names & after & e & -> & Hwf & Hr)].
  - left. split; [exact Hwf|]. now apply compare_constants_on_ok.
  - right. exists before, names, after, e. repeat split; try assumption.
    unfold compare_constants_on.
    now rewrite (compare_loop_raise _ _ values before after names _ e Hwf Hr).
Qed.

Lemma status_zero_iff (pairs : list (string * string)) :
  status (all_mismatches values pairs) = 0
  <-> Forall (fun names => fst (values names) = snd (values names)) pairs.
Proof.
  rewrite List.Forall_forall. split.
  - intros H names Hin.
    assert (E : all_mismatches values pairs = [])
      by (destruct (all_mismatches values pairs); [reflexivity | discriminate H]).
    apply all_match_no_mismatch in E. rewrite forallb_forall in E.
    apply matches_eq. exact (E names Hin).
  - intros H.
    assert (E : forallb (fun names => matches (values names)) pairs = true).
    { apply forallb_forall. intros names Hin. apply matches_eq. exact (H names Hin). }
    apply all_match_no_mismatch in E. now rewrite E.
Qed.

Lemma status_zero_or_one (ms : list mismatch) : status ms = 0 \/ status ms = 1.
Proof. destruct ms; [now left | now right]. Qed.

(** X13. The exit status of the script is 0 or 1, for any tables and
    any mapping list, and it is 0 exactly when every mapped pair can be
    evaluated and has equal canonical strings; a missing key, a decimal
    entry that does not convert and a mismatch all give 1. *)
Theorem exit_status_zero_iff (pairs : list (string * string)) :
  (exit_status (run_on pairs) = 0 \/ exit_status (run_on pairs) = 1) /\
  (exit_status (run_on pairs) = 0
   <-> Forall (fun names => exists h, canonical names = Returned (h, h)) pairs).
Proof.
  destruct (run_cases pairs)
    as [[Hwf ->] | (before & names & after & e & -> & Hwf & Hr & ->)];
    cbn [exit_status].
  - split; [apply status_zero_or_one|].
    rewrite status_zero_iff, !List.Forall_forall.
    unfold well_formed in Hwf. rewrite List.Forall_forall in Hwf.
    split; intros H names Hin; specialize (H names Hin); specialize (Hwf names Hin).
    + remember (values names) as v eqn:Ev. destruct v as [a b].
      cbn [fst snd] in H. subst b. now exists a.
    + destruct H as [h Hh]. rewrite Hh in Hwf. injection Hwf as Hv.
      now rewrite <- Hv.
  - split; [now right|]. split; [discriminate|].
    rewrite List.Forall_forall. intros H.
    destruct (H names) as [h Hh]; [apply in_or_app; right; now left|].
    rewrite Hr in Hh. discriminate Hh.
Qed.

(** X14. Any exception raised while a pair is evaluated ends the run
    at that pair: the pairs before it have been reported, nothing else is
    printed, the exception escapes and the exit status is 1.  This holds
    for [ValueError] and [OverflowError] from a decimal entry as for
    [KeyError]. *)
Theorem exception_aborts_run
  (before after : list (string * string)) (names : string * string)
  (e : exception) :
  Forall (fun names => exists v, canonical names = Returned v) before ->
  canonical names = Raised e ->
  run_on (before ++ names :: after)
  = (flat_map (fun names => pair_report names (values names)) before, Raised e) /\
  exit_status (run_on (before ++ names :: after)) = 1.
Proof.
  intros Hbefore Hr.
  assert (Hwf : well_formed risc0_constants our_constants values before).
  { eapply List.Forall_impl; [|exact Hbefore].
    intros n [v Hv]. now rewrite (canonical_values_returned _ _ Hv). }
  unfold compare_constants_on.
  rewrite (compare_loop_raise _ _ values before after names _ e Hwf Hr).
  now split.
Qed.

(** X15. Which exception a pair raises: [KeyError] on the RISC Zero
    name if it is not a key of the first table, whatever the second
    table holds; otherwise the exception of the conversion of the decimal
    entry, if any; otherwise [KeyError] on our name if it is not a key of
    the second table. *)
Theorem exception_precedence (names : string * string) (e : exception) :
  run_on [names] = ([], Raised e)
  <-> (risc0_constants !! fst names = None /\ e = KeyError (fst names)) \/
      (exists decimal_str,
          risc0_constants !! fst names = Some decimal_str /\
          decimal_to_little_endian_hex decimal_str = Raised e) \/
      (exists decimal_str risc0_hex,
          risc0_constants !! fst names = Some decimal_str /\
          decimal_to_little_endian_hex decimal_str = Returned risc0_hex /\
          our_constants !! snd names = None /\ e = KeyError (snd names)).
Proof.
  assert (Hrun : forall e', canonical names = Raised e' ->
                            run_on [names] = ([], Raised e')).
  { intros e' He'. unfold compare_constants_on. cbn [compare_loop].
    now rewrite (compare_pair_raise _ _ _ _ _ He'). }
  assert (Hok : forall v, canonical names = Returned v ->
                          exists l s, run_on [names] = (l, Returned s)).
  { intros v Hv. rewrite (compare_constants_on_ok _ _ (fun _ => v)); [eauto|].
    constructor; [exact Hv | constructor]. }
  assert (Hcan : canonical names = Raised e <-> run_on [names] = ([], Raised e)).
  { split; [apply Hrun|]. intros H.
    destruct (canonical names) as [v|e'].
    - destruct (Hok v eq_refl) as (l & st & Hl). rewrite Hl in H. discriminate H.
    - rewrite (Hrun e' eq_refl) in H. now injection H as ->. }
  clear Hrun Hok.
  rewrite <- Hcan. unfold Spec.canonical, getitem.
  destruct (risc0_constants !! fst names) as [decimal_str|] eqn:Er; cbn [obind].
  - destruct (decimal_to_little_endian_hex decimal_str) as [risc0_hex|e1] eqn:Ed;
      cbn [obind].
    + destruct (our_constants !! snd names) as [our_hex|] eqn:Eo; cbn [obind]; split.
      * discriminate.
      * intros [[H _] | [(d & Hd & H) | (d & h & _ & _ & H & _)]]; congruence.
      * intros [= <-]. right. right. now exists decimal_str, risc0_hex.
      * intros [[H _] | [(d & Hd & H) | (d & h & _ & _ & _ & ->)]]; congruence.
    + split.
      * intros [= <-]. right. left. now exists decimal_str.
      * intros [[H _] | [(d & Hd & H) | (d & h & Hd & H & _)]]; congruence.
  - split.
    + intros [= <-]. now left.
    + intros [[_ ->] | [(d & H & _) | (d & h & H & _)]]; congruence.
Qed.

End Run.

(** *** The shape of the transcript *)

Lemma compared_pairs_app (l l' : list line) :
  compared_pairs (l ++ l') = compared_pairs l ++ compared_pairs l'.
Proof. apply omap_app. Qed.

Lemma crossed_pairs_app (l l' : list line) :
  crossed_pairs (l ++ l') = crossed_pairs l ++ crossed_pairs l'.
Proof. apply omap_app. Qed.

Lemma detailed_pairs_app (l l' : list line) :
  detailed_pairs (l ++ l') = detailed_pairs l ++ detailed_pairs l'.
Proof. apply omap_app. Qed.

Lemma pairs_of_details (ms : list mismatch) :
  compared_pairs (map Detail ms) = [] /\
  crossed_pairs (map Detail ms) = [] /\
  detailed_pairs (map Detail ms)
  = map (fun m => (m_risc0_name m, m_our_name m)) ms.
Proof.
  induction ms as [|m ms (IH1 & IH2 & IH3)]; [now repeat split|].
  repeat split; cbn [map]; [exact IH1 | exact IH2 |].
  change (detailed_pairs (Detail m :: map Detail ms))
    with ((m_risc0_name m, m_our_name m) :: detailed_pairs (map Detail ms)).
  now rewrite IH3.
Qed.

Lemma pairs_of_summary (ms : list mismatch) :
  compared_pairs (summary ms) = [] /\
  crossed_pairs (summary ms) = [] /\
  detailed_pairs (summary ms)
  = map (fun m => (m_risc0_name m, m_our_name m)) ms.
Proof.
  destruct ms as [|m ms]; [now repeat split|].
  destruct (pairs_of_details (m :: ms)) as (H1 & H2 & H3).
  cbn [summary]. repeat split; [exact H1 | exact H2 | exact H3].
Qed.

Lemma pairs_of_reports (values : string * string -> string * string)
  (pairs : list (string * string)) :
  let lines := flat_map (fun names => pair_report names (values names)) pairs in
  compared_pairs lines = pairs /\
  crossed_pairs lines
  = List.filter (fun names => negb (matches (values names))) pairs /\
  detailed_pairs lines = [].
Proof.
  cbv zeta. induction pairs as [|[r o] pairs (IH1 & IH2 & IH3)]; [now repeat split|].
  cbn [flat_map List.filter].
  rewrite compared_pairs_app, crossed_pairs_app, detailed_pairs_app, IH1, IH2, IH3.
  unfold pair_report. destruct (matches (values (r, o))); now repeat split.
Qed.

Lemma in_summary (b : bool) (r o : string) (ms : list mismatch) :
  ~ In (Compared b r o) (summary ms).
Proof.
  destruct ms as [|m ms]; cbn [summary]; intros H.
  - destruct H as [H|[]]. discriminate H.
  - destruct H as [H|H]; [discriminate H|].
    apply in_map_iff in H. destruct H as (m' & H & _). discriminate H.
Qed.

Section Transcript.
Variables risc0_constants our_constants : gmap string string.

Local Abbreviation canonical := (Spec.canonical risc0_constants our_constants).
Local Abbreviation values := (canonical_values risc0_constants our_constants).
Local Abbreviation run_on := (compare_constants_on risc0_constants our_constants).

(** X16. The comparison lines of a transcript name a prefix of the
    mapping list, in order; the run returns a status exactly when they
    name the whole list; and when it returns, the detailed blocks after
    the summary name the same pairs, in the same order, as the lines that
    carry a cross. *)
Theorem transcript_shape (pairs : list (string * string)) :
  let result := run_on pairs in
  compared_pairs (fst result) `prefix_of` pairs /\
  ((exists s, snd result = Returned s) <-> compared_pairs (fst result) = pairs) /\
  ((exists s, snd result = Returned s) ->
   detailed_pairs (fst result) = crossed_pairs (fst result)).
Proof.
  cbv zeta.
  destruct (run_cases risc0_constants our_constants pairs)
    as [[Hwf ->] | (before & names & after & e & -> & Hwf & Hr & ->)];
    cbn [fst snd].
  - unfold report.
    destruct (pairs_of_reports values pairs) as (H1 & H2 & H3).
    destruct (pairs_of_summary (all_mismatches values pairs)) as (S1 & S2 & S3).
    rewrite compared_pairs_app, crossed_pairs_app, detailed_pairs_app.
    rewrite H1, H2, H3, S1, S2, S3, !app_nil_r. cbn [app].
    split; [reflexivity|]. split; [split; eauto|].
    intros _. rewrite all_mismatches_filter, map_map. cbn [m_risc0_name m_our_name].
    clear. induction (List.filter _ pairs) as [|[r o] l IH]; [reflexivity|].
    cbn [map fst snd]. now rewrite IH.
  - destruct (pairs_of_reports values before) as (H1 & _ & _). rewrite H1.
    split; [now exists (names :: after)|]. split.
    + split; [intros [s Hs]; discriminate Hs|].
      intros H. apply (f_equal (@length _)) in H.
      rewrite length_app in H. cbn [length] in H. lia.
    + intros [s Hs]. discriminate Hs.
Qed.

(** X17. A pair reported with a check mark is a true agreement: both
    names are keys of their tables, the decimal entry reads as an integer
    [n] below 2^256, and the stored hex entry, decoded by [bytes.fromhex]
    and read as a little-endian word by [bytes_to_uint256_be], is [n]. *)
Theorem reported_match_is_sound (pairs : list (string * string)) (r o : string) :
  In (Compared true r o) (fst (run_on pairs)) ->
  exists (decimal_str our_hex : string) (n : Z),
    risc0_constants !! r = Some decimal_str /\
    our_constants !! o = Some our_hex /\
    int_of_str decimal_str = Returned n /\
    0 <= n < 2 ^ 256 /\
    obind (bytes_fromhex our_hex)
      (fun w => Returned (ConvertProof.bytes_to_uint256_be w))
    = Returned n.
Proof.
  intros Hin.
  assert (Hpair : exists l, In (Compared true r o)
                              (flat_map (fun names => pair_report names (values names)) l)
                            /\ well_formed risc0_constants our_constants values l).
  { destruct (run_cases risc0_constants our_constants pairs)
      as [[Hwf Hrun] | (before & names & after & e & _ & Hwf & _ & Hrun)];
      rewrite Hrun in Hin; cbn [fst] in Hin.
    - unfold report in Hin. apply in_app_or in Hin.
      destruct Hin as [Hin|Hin]; [eauto | now apply in_summary in Hin].
    - eauto. }
  destruct Hpair as (l & Hl & Hwf).
  apply in_flat_map in Hl. destruct Hl as (names & Hnames & Hrep).
  unfold well_formed in Hwf. rewrite List.Forall_forall in Hwf.
  specialize (Hwf names Hnames).
  unfold pair_report in Hrep.
  destruct (matches (values names)) eqn:Hm.
  2: { destruct Hrep as [H|[H|[]]]; discriminate H. }
  destruct Hrep as [H|[]]. injection H as <- <-.
  apply matches_eq in Hm.
  unfold Spec.canonical, getitem in Hwf.
  destruct (risc0_constants !! fst names) as [decimal_str|] eqn:Er;
    [|discriminate Hwf].
  cbn [obind] in Hwf.
  pose proof (decimal_to_little_endian_hex_cases decimal_str) as Hc.
  destruct (decimal_to_little_endian_hex decimal_str) as [risc0_hex|]; [|discriminate Hwf].
  cbn [obind] in Hwf.
  destruct (our_constants !! snd names) as [our_hex|] eqn:Eo; [|discriminate Hwf].
  cbn [obind] in Hwf. injection Hwf as Hv. rewrite <- Hv in Hm. cbn [fst snd] in Hm.
  subst our_hex.
  destruct (int_of_str decimal_str) as [n|e] eqn:Ei;
    [|destruct Hc as [_ Hc]; discriminate Hc].
  destruct (Z.leb_spec 0 n); destruct (Z.ltb_spec n (2 ^ 256));
    cbn [andb] in Hc; try discriminate Hc.
  injection Hc as ->.
  exists decimal_str, (little_endian_hex n), n.
  do 3 (split; [first [assumption | reflexivity]|]). split; [lia|].
  unfold little_endian_hex. rewrite bytes_fromhex_hex. cbn [obind].
  unfold ConvertProof.bytes_to_uint256_be. cbv zeta.
  rewrite <- rev_be_bytes, rev_involutive, from_bytes_be_bytes; [reflexivity|].
  change (256 ^ Z.of_nat 32) with (2 ^ 256). lia.
Qed.

End Transcript.

(** *** Keys that the mapping list does not name *)

Lemma run_ext (risc0 ours risc0' ours' : gmap string string)
  (pairs : list (string * string)) :
  (forall names, In names pairs ->
                 Spec.canonical risc0 ours names = Spec.canonical risc0' ours' names) ->
  compare_constants_on risc0 ours pairs = compare_constants_on risc0' ours' pairs.
Proof.
  intros Hext. unfold compare_constants_on.
  assert (Hloop : forall st, compare_loop risc0 ours pairs st
                             = compare_loop risc0' ours' pairs st).
  { induction pairs as [|names pairs IH]; intros st; [reflexivity|].
    cbn [compare_loop].
    pose proof (Hext names (or_introl eq_refl)) as Hn.
    destruct (Spec.canonical risc0 ours names) as [v|e] eqn:E; symmetry in Hn.
    - rewrite (compare_pair_ok _ _ _ _ _ E), (compare_pair_ok _ _ _ _ _ Hn).
      cbn [bind]. now rewrite IH by (intros n Hin; apply Hext; now right).
    - now rewrite (compare_pair_raise _ _ _ _ _ E), (compare_pair_raise _ _ _ _ _ Hn). }
  now rewrite Hloop.
Qed.

(** X18. The script reads the tables at the names of the mapping list
    only: adding, changing or removing an entry of the first table under
    a key that is no RISC Zero name of the list, or of the second table
    under a key that is none of our names of the list, changes neither
    the transcript nor the result. *)
Theorem unmapped_keys_not_read (risc0_constants our_constants : gmap string string)
  (pairs : list (string * string)) (key value : string) :
  (~ In key (map fst pairs) ->
   compare_constants_on (<[key := value]> risc0_constants) our_constants pairs
   = compare_constants_on risc0_constants our_constants pairs /\
   compare_constants_on (delete key risc0_constants) our_constants pairs
   = compare_constants_on risc0_constants our_constants pairs) /\
  (~ In key (map snd pairs) ->
   compare_constants_on risc0_constants (<[key := value]> our_constants) pairs
   = compare_constants_on risc0_constants our_constants pairs /\
   compare_constants_on risc0_constants (delete key our_constants) pairs
   = compare_constants_on risc0_constants our_constants pairs).
Proof.
  split; intros Hkey; split; apply run_ext; intros names Hin;
    unfold Spec.canonical, getitem.
  - rewrite lookup_insert_ne; [reflexivity|].
    intros ->. apply Hkey. now apply in_map.
  - rewrite lookup_delete_ne; [reflexivity|].
    intros ->. apply Hkey. now apply in_map.
  - rewrite lookup_insert_ne; [reflexivity|].
    intros ->. apply Hkey. now apply in_map.
  - rewrite lookup_delete_ne; [reflexivity|].
    intros ->. apply Hkey. now apply in_map.
Qed.

(** *** Decimal entries made of digits *)

Lemma digit_value_code (c : ascii) (d : Z) :
  digit_value c = Some d -> 0 <= d <= 9 /\ Z.of_N (N_of_ascii c) = 48 + d.
Proof.
  unfold digit_value. cbv zeta.
  destruct (N.leb_spec 48 (N_of_ascii c)); [|discriminate].
  destruct (N.leb_spec (N_of_ascii c) 57); [|discriminate].
  cbn [andb]. intros [= <-]. lia.
Qed.

Lemma digit_value_inj (c c' : ascii) (d : Z) :
  digit_value c = Some d -> digit_value c' = Some d -> c = c'.
Proof.
  intros H H'. apply digit_value_code in H, H'.
  rewrite <- (ascii_N_embedding c), <- (ascii_N_embedding c'). f_equal. lia.
Qed.

Lemma is_digit_value (c : ascii) :
  is_digit c = true -> exists d, digit_value c = Some d.
Proof. unfold is_digit. destruct (digit_value c) as [d|]; [eauto | discriminate]. Qed.

Lemma is_digit_plain (c : ascii) :
  is_digit c = true ->
  is_space c = false /\
  (N_of_ascii c =? 43)%N = false /\ (N_of_ascii c =? 45)%N = false.
Proof.
  intros H. destruct (is_digit_value c H) as [d Hd].
  apply digit_value_code in Hd. unfold is_space. cbv zeta.
  destruct (N.leb_spec 9 (N_of_ascii c)); destruct (N.leb_spec (N_of_ascii c) 13);
    destruct (N.eqb_spec (N_of_ascii c) 32); destruct (N.eqb_spec (N_of_ascii c) 133);
    destruct (N.eqb_spec (N_of_ascii c) 160); destruct (N.eqb_spec (N_of_ascii c) 43);
    destruct (N.eqb_spec (N_of_ascii c) 45); cbn; repeat split; try reflexivity; lia.
Qed.

Lemma lstrip_digits (cs : list ascii) :
  forallb is_digit cs = true -> lstrip cs = cs.
Proof.
  destruct cs as [|c cs]; [reflexivity|]. cbn [forallb lstrip].
  intros H. apply andb_prop in H. destruct H as [Hc _].
  now destruct (is_digit_plain c Hc) as (-> & _).
Qed.

Lemma forallb_rev {A} (f : A -> bool) (l : list A) :
  forallb f l = true -> forallb f (rev l) = true.
Proof.
  rewrite !forallb_forall. intros H x Hx. apply H. now apply in_rev.
Qed.

Lemma strip_digits (cs : list ascii) :
  forallb is_digit cs = true -> strip cs = cs.
Proof.
  intros H. unfold strip.
  rewrite (lstrip_digits cs H), (lstrip_digits (rev cs) (forallb_rev _ _ H)).
  apply rev_involutive.
Qed.

Lemma parse_digits_digits (cs : list ascii) (acc : Z) (sep : bool) :
  forallb is_digit cs = true -> cs <> [] \/ sep = false ->
  parse_digits acc sep cs
  = Some (fold_left (fun a c => a * 10 + default 0 (digit_value c)) cs acc).
Proof.
  revert acc sep. induction cs as [|c cs IH]; intros acc sep Hall Hne.
  - destruct Hne as [Hne | ->]; [now destruct Hne | reflexivity].
  - cbn [forallb] in Hall. apply andb_prop in Hall. destruct Hall as [Hc Hcs].
    destruct (is_digit_value c Hc) as [d Hd].
    cbn [parse_digits fold_left]. rewrite Hd. cbn [default].
    apply IH; [exact Hcs | now right].
Qed.

Lemma int_of_str_digits (s : string) (n : Z) :
  digits_only s = true ->
  int_of_str s = Returned n ->
  n = digits_value (list_ascii_of_string s).
Proof.
  unfold digits_only, int_of_str, digits_value. cbv zeta.
  destruct (list_ascii_of_string s) as [|c cs] eqn:E; [discriminate|].
  intros Hall. rewrite (strip_digits _ Hall).
  pose proof Hall as Hc. cbn [forallb] in Hc. apply andb_prop in Hc.
  destruct Hc as [Hc _]. destruct (is_digit_plain c Hc) as (_ & -> & ->).
  cbn [fst snd]. rewrite (parse_digits_digits (c :: cs) 0 true Hall) by (left; discriminate).
  destruct (_ <? _)%nat; [discriminate|].
  intros [= <-]. now rewrite Z.mul_1_l.
Qed.

Lemma fold_digits (cs : list ascii) (acc : Z) :
  fold_left (fun a c => a * 10 + default 0 (digit_value c)) cs acc
  = acc * 10 ^ Z.of_nat (length cs) + digits_value cs.
Proof.
  unfold digits_value. revert acc.
  induction cs as [|c cs IH]; intros acc; [cbn; lia|].
  cbn [fold_left length]. rewrite IH, (IH (0 * 10 + _)).
  rewrite Nat2Z.inj_succ, Z.pow_succ_r by lia. ring.
Qed.

Lemma digits_value_range (cs : list ascii) :
  forallb is_digit cs = true -> 0 <= digits_value cs < 10 ^ Z.of_nat (length cs).
Proof.
  induction cs as [|c cs IH]; intros Hall; [cbn; lia|].
  cbn [forallb] in Hall. apply andb_prop in Hall. destruct Hall as [Hc Hcs].
  destruct (is_digit_value c Hc) as [d Hd]. pose proof (digit_value_code c d Hd).
  unfold digits_value. cbn [fold_left]. rewrite fold_digits, Hd. cbn [default length].
  rewrite Nat2Z.inj_succ, Z.pow_succ_r by lia.
  specialize (IH Hcs). unfold id. nia.
Qed.

Lemma digits_value_inj (cs cs' : list ascii) :
  forallb is_digit cs = true -> forallb is_digit cs' = true ->
  length cs = length cs' -> digits_value cs = digits_value cs' -> cs = cs'.
Proof.
  revert cs'. induction cs as [|c cs IH]; intros [|c' cs'] Hall Hall' Hlen Hval;
    try discriminate Hlen; [reflexivity|].
  cbn [forallb] in Hall, Hall'. apply andb_prop in Hall, Hall'.
  destruct Hall as [Hc Hcs], Hall' as [Hc' Hcs'].
  destruct (is_digit_value c Hc) as [d Hd], (is_digit_value c' Hc') as [d' Hd'].
  pose proof (digit_value_code c d Hd). pose proof (digit_value_code c' d' Hd').
  injection Hlen as Hlen.
  unfold digits_value in Hval. cbn [fold_left] in Hval.
  rewrite !fold_digits, Hd, Hd', Hlen in Hval. cbn [default] in Hval.
  unfold id in Hval.
  pose proof (digits_value_range cs Hcs) as R. rewrite Hlen in R.
  pose proof (digits_value_range cs' Hcs') as R'.
  assert (Hp : 0 < 10 ^ Z.of_nat (length cs')) by (apply Z.pow_pos_nonneg; lia).
  assert (Hdd : d = d') by nia. subst d'.
  f_equal; [exact (digit_value_inj c c' d Hd Hd')|].
  apply IH; try assumption. lia.
Qed.

Lemma length_list_ascii_of_string (s : string) :
  length (list_ascii_of_string s) = String.length s.
Proof. induction s as [|c s IH]; [reflexivity|]. cbn. now rewrite IH. Qed.

Lemma digits_only_forallb (s : string) :
  digits_only s = true -> forallb is_digit (list_ascii_of_string s) = true.
Proof.
  unfold digits_only. now destruct (list_ascii_of_string s).
Qed.

Lemma decimal_to_little_endian_hex_inv (decimal_str h : string) :
  decimal_to_little_endian_hex decimal_str = Returned h ->
  exists n, int_of_str decimal_str = Returned n /\
            0 <= n < 2 ^ 256 /\ h = little_endian_hex n.
Proof.
  pose proof (decimal_to_little_endian_hex_cases decimal_str) as Hc.
  intros H. destruct (int_of_str decimal_str) as [n|e].
  - destruct (Z.leb_spec 0 n); destruct (Z.ltb_spec n (2 ^ 256));
      cbn [andb] in Hc; rewrite Hc in H; try discriminate H.
    injection H as <-. exists n. now repeat split.
  - destruct Hc as [_ Hc]. rewrite Hc in H. discriminate H.
Qed.

(** X19. Two decimal entries made of digits only and of the same length
    that canonicalise to the same hex string are the same string: a
    digit replaced by another digit always changes the canonical value
    (or makes the conversion raise). *)
Theorem digit_strings_canonicalise_apart (s s' h : string) :
  digits_only s = true -> digits_only s' = true ->
  String.length s = String.length s' ->
  decimal_to_little_endian_hex s = Returned h ->
  decimal_to_little_endian_hex s' = Returned h ->
  s = s'.
Proof.
  intros Hd Hd' Hlen Hs Hs'.
  destruct (decimal_to_little_endian_hex_inv s h Hs) as (n & Hn & Rn & ->).
  destruct (decimal_to_little_endian_hex_inv s' _ Hs') as (n' & Hn' & Rn' & Heq).
  apply little_endian_hex_inj in Heq; [subst n'| assumption..].
  apply (int_of_str_digits s n Hd) in Hn. apply (int_of_str_digits s' n Hd') in Hn'.
  rewrite <- (string_of_list_ascii_of_string s), <- (string_of_list_ascii_of_string s').
  f_equal. apply digits_value_inj.
  - now apply digits_only_forallb.
  - now apply digits_only_forallb.
  - now rewrite !length_list_ascii_of_string.
  - congruence.
Qed.

Lemma digit_strings_canonicalise_apart_witness :
  decimal_to_little_endian_hex "258" = Returned (little_endian_hex 258) /\
  "258"%string = "258"%string.
Proof.
  assert (H : decimal_to_little_endian_hex "258" = Returned (little_endian_hex 258))
    by reflexivity.
  split; [exact H|].
  exact (digit_strings_canonicalise_apart "258" "258" (little_endian_hex 258)
           eq_refl eq_refl eq_refl H H).
Defined.

(** *** The tables of the script *)

(** X20. With the tables and the mapping list written in the script,
    the run exits with status 1: the fourteen pairs of the G1 point and
    of the IC points match, and the twelve pairs of the G2 points BETA,
    GAMMA and DELTA are reported as mismatches.  With the two components
    of every G2 coordinate exchanged in the mapping list (X1 with C1, X2
    with C0), every pair matches and the status is 0. *)
Theorem shipped_tables :
  exit_status compare_constants = 1 /\
  crossed_pairs (fst compare_constants)
  = [ ("BETA_X1", "BETA_G2_X_C0"); ("BETA_X2", "BETA_G2_X_C1");
      ("BETA_Y1", "BETA_G2_Y_C0"); ("BETA_Y2", "BETA_G2_Y_C1");
      ("GAMMA_X1", "GAMMA_G2_X_C0"); ("GAMMA_X2", "GAMMA_G2_X_C1");
      ("GAMMA_Y1", "GAMMA_G2_Y_C0"); ("GAMMA_Y2", "GAMMA_G2_Y_C1");
      ("DELTA_X1", "DELTA_G2_X_C0"); ("DELTA_X2", "DELTA_G2_X_C1");
      ("DELTA_Y1", "DELTA_G2_Y_C0"); ("DELTA_Y2", "DELTA_G2_Y_C1") ]%string /\
  compared_pairs (fst compare_constants) = mappings /\
  compare_constants_on RISC0_CONSTANTS OUR_CONSTANTS mappings_swapped
  = (map (fun names => Compared true (fst names) (snd names)) mappings_swapped
     ++ [AllMatch], Returned 0).
Proof. repeat split; vm_compute; reflexivity. Qed.

(** *** Witnesses *)

Lemma exception_aborts_run_witness :
  compare_constants_on (<["K"%string := "2x8"%string]> example_risc0) example_ours
    ([] ++ ("K", "K")%string :: [("K", "K")%string])
  = ([], Raised ValueError).
Proof.
  refine (proj1 (exception_aborts_run
                   (<["K"%string := "2x8"%string]> example_risc0) example_ours
                   [] [("K", "K")%string] ("K", "K")%string ValueError _ _)).
  - constructor.
  - reflexivity.
Defined.

Lemma reported_match_is_sound_witness :
  exists (decimal_str our_hex : string) (n : Z),
    example_risc0 !! "K"%string = Some decimal_str /\
    example_ours !! "K"%string = Some our_hex /\
    int_of_str decimal_str = Returned n /\
    0 <= n < 2 ^ 256 /\
    obind (bytes_fromhex our_hex)
      (fun w => Returned (ConvertProof.bytes_to_uint256_be w))
    = Returned n.
Proof.
  refine (reported_match_is_sound example_risc0 example_ours
            [("K", "K")%string] "K" "K" _).
  left. reflexivity.
Defined.

Lemma unmapped_keys_not_read_witness :
  ~ In "Q"%string (map fst [("K", "K")%string]) /\
  compare_constants_on (<["Q"%string := "7"%string]> example_risc0) example_ours
    [("K", "K")%string]
  = compare_constants_on example_risc0 example_ours [("K", "K")%string].
Proof.
  assert (H : ~ In "Q"%string (map fst [("K", "K")%string])).
  { intros [H|[]]. discriminate H. }
  split; [exact H|].
  exact (proj1 (proj1 (unmapped_keys_not_read example_risc0 example_ours
                         [("K", "K")%string] "Q" "7") H)).
Defined.

Lemma exit_status_zero_iff_witness :
  exit_status (compare_constants_on example_risc0 example_ours [("K", "K")%string]) = 0.
Proof.
  apply (proj2 (exit_status_zero_iff example_risc0 example_ours [("K", "K")%string])).
  constructor; [|constructor].
  exists (little_endian_hex 258). reflexivity.
Defined.

Lemma exception_precedence_witness :
  compare_constants_on example_risc0 example_ours [("Q", "R")%string]
  = ([], Raised (KeyError "Q")).
Proof.
  apply (exception_precedence example_risc0 example_ours ("Q", "R")%string).
  left. split; reflexivity.
Defined.

Lemma transcript_shape_witness :
  detailed_pairs
    (fst (compare_constants_on example_risc0 example_ours [("K", "K")%string]))
  = crossed_pairs
      (fst (compare_constants_on example_risc0 example_ours [("K", "K")%string])).
Proof.
  apply (proj2 (proj2 (transcript_shape example_risc0 example_ours
                         [("K", "K")%string]))).
  exists 0. reflexivity.
Defined.

End CompareVkMore.

(** ** The cross-checker when a pair cannot be evaluated, and pair by pair *)

Module CrossCheck.
Import Py PyFacts CompareVk Spec Props CompareVkSpec CompareVkMore.

Lemma canonical_parts (risc0_constants our_constants : gmap string string)
  (names v : string * string) :
  Spec.canonical risc0_constants our_constants names = Returned v
  <-> obind (getitem risc0_constants (fst names)) decimal_to_little_endian_hex
      = Returned (fst v) /\
      our_constants !! snd names = Some (snd v).
Proof.
  unfold Spec.canonical, getitem at 2. destruct v as [rh oh]. cbn [fst snd].
  destruct (obind (getitem risc0_constants (fst names)) decimal_to_little_endian_hex)
    as [rh'|e]; cbn [obind].
  - destruct (our_constants !! snd names) as [oh'|]; cbn [obind]; split.
    + now intros [= <- <-].
    + now intros [[= <-] [= <-]].
    + discriminate.
    + intros [_ H]. discriminate H.
  - split; [discriminate | intros [H _]; discriminate H].
Qed.

Section Tables.
Variables risc0_constants our_constants : gmap string string.

Local Abbreviation canonical := (Spec.canonical risc0_constants our_constants).
Local Abbreviation values := (canonical_values risc0_constants our_constants).
Local Abbreviation run_on := (compare_constants_on risc0_constants our_constants).
Local Abbreviation evaluates :=
  (fun names : string * string => exists v, canonical names = Returned v).

Lemma evaluates_well_formed (pairs : list (string * string)) :
  Forall evaluates pairs ->
  well_formed risc0_constants our_constants values pairs.
Proof.
  intros H. eapply List.Forall_impl; [|exact H].
  intros names [v Hv]. cbv beta.
  now rewrite (canonical_values_returned _ _ _ _ Hv).
Qed.


Lemma reports_agree vals (pairs : list (string * string)) :
  well_formed risc0_constants our_constants vals pairs ->
  flat_map (fun names => pair_report names (vals names)) pairs
  = flat_map (fun names => pair_report names (values names)) pairs.
Proof.
  intros H. induction H as [|names pairs Hn _ IH]; [reflexivity|].
  cbn [flat_map]. now rewrite IH, (canonical_values_returned _ _ _ _ Hn).
Qed.




(** C7, amended. Provided every mapped pair can be evaluated (both
    names are keys of their tables and the decimal entry converts), the
    cross-checker compares every mapped pair without short-circuiting,
    collects all mismatches in order (the two names and the two canonical
    hex strings), and the status is 0 exactly when all pairs match and 1
    when at least one does not.  Otherwise the run stops at the first pair
    that cannot be evaluated: the pairs before it have been reported, the
    exception escapes, no summary and no list of mismatches is printed,
    and the exit status is 1. *)
Theorem compare_constants_outcome (pairs : list (string * string)) :
  let result := run_on pairs in
  (Forall evaluates pairs ->
   result = (report values pairs, Returned (status (all_mismatches values pairs))) /\
   all_mismatches values pairs
   = map (fun names =>
            {| m_risc0_name := fst names; m_our_name := snd names;
               m_risc0_hex := fst (values names);
               m_our_hex := snd (values names) |})
       (List.filter (fun names => negb (matches (values names))) pairs) /\
   (exit_status result = 0
    <-> Forall (fun names => fst (values names) = snd (values names)) pairs) /\
   (Exists (fun names => fst (values names) <> snd (values names)) pairs ->
    exit_status result = 1)) /\
  (forall before names after e,
      pairs = before ++ names :: after ->
      Forall evaluates before ->
      canonical names = Raised e ->
      result = (flat_map (fun names => pair_report names (values names)) before,
                Raised e) /\
      exit_status result = 1).
Proof.
  intros result. subst result. split.
  - intros Hev.
    exact (well_formed_run risc0_constants our_constants values pairs
             (evaluates_well_formed pairs Hev)).
  - intros before names after e -> Hbefore He.
    unfold compare_constants_on.
    rewrite (compare_loop_raise _ _ values before after names _ e
               (evaluates_well_formed before Hbefore) He).
    now split.
Qed.

(** *** Pair by pair *)

Lemma same_integer_values vals (names : string * string) :
  canonical names = Returned (vals names) ->
  same_integer risc0_constants our_constants names ->
  exists n, 0 <= n < 2 ^ 256 /\
            vals names = (little_endian_hex n, little_endian_hex n) /\
            our_constants !! snd names = Some (little_endian_hex n) /\
            (forall s, risc0_constants !! fst names = Some s ->
                       int_of_str s = Returned n).
Proof.
  intros Hc (decimal_str & n & Hr & Hs & Hn & Ho).
  exists n. split; [exact Hn|].
  apply canonical_parts in Hc. destruct Hc as [Hc1 Hc2].
  unfold getitem in Hc1. rewrite Hr in Hc1. cbn [obind] in Hc1.
  rewrite (decimal_to_little_endian_hex_ok _ _ Hs Hn) in Hc1.
  rewrite Ho in Hc2. injection Hc1 as Hc1. injection Hc2 as Hc2.
  split; [destruct (vals names); cbn [fst snd] in *; congruence|].
  split; [exact Ho|]. intros s Hs'. congruence.
Qed.

(** C6, amended. Provided every mapped pair can be evaluated: a pair
    whose decimal entry and hex entry encode the same unsigned integer
    below 2^256 is reported as a match.  If one byte of a hex entry is
    then changed, every such pair that reads that entry is reported as a
    mismatch and the pairs that do not read it are reported as before.
    If a decimal entry is replaced by a string that reads as another
    unsigned integer below 2^256, every such pair that reads that entry
    is reported as a mismatch and the pairs that do not read it are
    reported as before; if it is replaced by a string that does not
    convert, the run ends with the exception of the conversion at the
    first pair that reads the entry, and that pair is not reported. *)
Theorem cross_check_pair_by_pair
  (vals : string * string -> string * string)
  (pairs : list (string * string)) :
  well_formed risc0_constants our_constants vals pairs ->
  (run_on pairs = (report vals pairs, Returned (status (all_mismatches vals pairs))) /\
   forall names,
     In names pairs -> same_integer risc0_constants our_constants names ->
     matches (vals names) = true) /\
  (forall (our_name h h' : string),
      our_constants !! our_name = Some h ->
      single_byte_change h h' ->
      let vals' := with_our_hex our_name h' vals in
      compare_constants_on risc0_constants (<[our_name := h']> our_constants) pairs
      = (report vals' pairs, Returned (status (all_mismatches vals' pairs))) /\
      forall names,
        In names pairs ->
        (snd names = our_name ->
         same_integer risc0_constants our_constants names ->
         matches (vals' names) = false) /\
        (snd names <> our_name -> vals' names = vals names)) /\
  (forall (risc0_name s s' : string) (n m : Z),
      risc0_constants !! risc0_name = Some s ->
      int_of_str s = Returned n ->
      int_of_str s' = Returned m -> 0 <= m < 2 ^ 256 ->
      m <> n ->
      let vals' := with_risc0_hex risc0_name (little_endian_hex m) vals in
      compare_constants_on (<[risc0_name := s']> risc0_constants) our_constants pairs
      = (report vals' pairs, Returned (status (all_mismatches vals' pairs))) /\
      forall names,
        In names pairs ->
        (fst names = risc0_name ->
         same_integer risc0_constants our_constants names ->
         matches (vals' names) = false) /\
        (fst names <> risc0_name -> vals' names = vals names)) /\
  (forall (risc0_name s' : string) (e : exception)
          (before after : list (string * string)) (names : string * string),
      decimal_to_little_endian_hex s' = Raised e ->
      pairs = before ++ names :: after ->
      fst names = risc0_name ->
      Forall (fun x => fst x <> risc0_name) before ->
      compare_constants_on (<[risc0_name := s']> risc0_constants) our_constants pairs
      = (flat_map (fun names => pair_report names (vals names)) before, Raised e)).
Proof.
  intros Hwf.
  pose proof Hwf as Hall. unfold well_formed in Hall.
  rewrite List.Forall_forall in Hall.
  split; [|split; [|split]].
  - split; [now apply compare_constants_on_ok|].
    intros names Hin Hsame.
    destruct (same_integer_values vals names (Hall names Hin) Hsame)
      as (n & _ & -> & _).
    apply String.eqb_refl.
  - intros our_name h h' Hh Hchange vals'. split.
    + apply compare_constants_on_ok. apply List.Forall_forall. intros names Hin.
      specialize (Hall names Hin). apply canonical_parts in Hall.
      destruct Hall as [H1 H2]. apply canonical_parts. subst vals'.
      unfold with_our_hex.
      destruct (String.eqb_spec (snd names) our_name) as [E|E]; cbn [fst snd].
      * split; [exact H1|]. rewrite E. apply lookup_insert_eq.
      * split; [exact H1|]. rewrite lookup_insert_ne by congruence. exact H2.
    + intros names Hin. subst vals'. unfold with_our_hex. split.
      * intros E Hsame. rewrite <- E, String.eqb_refl.
        destruct (same_integer_values vals names (Hall names Hin) Hsame)
          as (n & _ & Hv & Ho & _).
        rewrite Hv. unfold matches. cbn [fst snd].
        apply String.eqb_neq. intros Heq.
        apply (single_byte_change_neq h h' Hchange).
        rewrite E, Hh in Ho. congruence.
      * intros E. apply String.eqb_neq in E. now rewrite E.
  - intros risc0_name s s' n m Hs Hn Hm Hmr Hne vals'. split.
    + apply compare_constants_on_ok. apply List.Forall_forall. intros names Hin.
      specialize (Hall names Hin). apply canonical_parts in Hall.
      destruct Hall as [H1 H2]. apply canonical_parts. subst vals'.
      unfold with_risc0_hex.
      destruct (String.eqb_spec (fst names) risc0_name) as [E|E]; cbn [fst snd].
      * split; [|exact H2]. unfold getitem. rewrite E, lookup_insert_eq. cbn [obind].
        now apply decimal_to_little_endian_hex_ok.
      * split; [|exact H2]. unfold getitem in *.
        rewrite lookup_insert_ne by congruence. exact H1.
    + intros names Hin. subst vals'. unfold with_risc0_hex. split.
      * intros E Hsame. rewrite <- E, String.eqb_refl.
        destruct (same_integer_values vals names (Hall names Hin) Hsame)
          as (n0 & Hn0 & Hv & _ & Hint).
        rewrite E in Hint. specialize (Hint s Hs). rewrite Hn in Hint.
        injection Hint as <-.
        rewrite Hv. unfold matches. cbn [fst snd].
        apply String.eqb_neq. intros Heq. apply Hne.
        now apply little_endian_hex_inj.
      * intros E. apply String.eqb_neq in E. now rewrite E.
  - intros risc0_name s' e before after names Hraise -> Hname Hbefore.
    unfold compare_constants_on.
    rewrite (compare_loop_raise _ _ vals before after names _ e); [reflexivity| |].
    + apply Forall_app in Hwf. destruct Hwf as [Hwf _].
      apply List.Forall_forall. intros x Hx.
      rewrite List.Forall_forall in Hwf, Hbefore.
      specialize (Hwf x Hx). specialize (Hbefore x Hx). cbv beta in Hbefore.
      apply canonical_parts in Hwf. destruct Hwf as [H1 H2].
      apply canonical_parts. split; [|exact H2].
      unfold getitem in *. rewrite lookup_insert_ne by congruence. exact H1.
    + unfold Spec.canonical, getitem. rewrite Hname, lookup_insert_eq. cbn [obind].
      now rewrite Hraise.
Qed.

End Tables.

(** *** Examples *)


(** C7 fails as stated: a decimal entry that does not fit 32 bytes
    stops the run after a mismatch has been found; the mismatch is in no
    collected list, the second pair is never compared, and no status is
    returned. *)
Lemma mismatch_then_overflow :
  compare_constants_on example_risc0_three example_ours_three
    [("L", "L"); ("N", "K")]%string
  = ([Compared false "L" "L"; Values (little_endian_hex 259) (little_endian_hex 7)],
     Raised OverflowError).
Proof. vm_compute. reflexivity. Qed.

Lemma compare_constants_outcome_witness :
  Forall (fun names =>
            exists v, Spec.canonical example_risc0_three example_ours_three names
                      = Returned v)
    [("K", "K"); ("L", "L")]%string /\
  compare_constants_on example_risc0_three example_ours_three
    [("K", "K"); ("L", "L")]%string
  = ([Compared true "K" "K"; Compared false "L" "L";
      Values (little_endian_hex 259) (little_endian_hex 7);
      Found 1;
      Detail {| m_risc0_name := "L"; m_our_name := "L";
                m_risc0_hex := little_endian_hex 259;
                m_our_hex := little_endian_hex 7 |}],
     Returned 1).
Proof.
  assert (Hev : Forall (fun names =>
                          exists v, Spec.canonical example_risc0_three
                                      example_ours_three names = Returned v)
                  [("K", "K"); ("L", "L")]%string).
  { constructor; [eexists; reflexivity|].
    constructor; [eexists; reflexivity|]. constructor. }
  split; [exact Hev|].
  destruct (compare_constants_outcome example_risc0_three example_ours_three
              [("K", "K"); ("L", "L")]%string) as [Hall _].
  destruct (Hall Hev) as (Hrun & _). exact Hrun.
Defined.

(** C6 fails as stated, in two ways.  In tables that agree on 258,
    changing the byte '5' of the decimal entry into 'x' is not reported as
    a mismatch of that entry: the run ends with [ValueError] and reports
    nothing.  And a pair whose entries agree is not reported as a match
    when a pair before it cannot be evaluated. *)
Lemma cross_check_not_pair_by_pair :
  (Forall (same_integer example_risc0 example_ours) [("K", "K")%string] /\
   single_byte_change "258" "2x8" /\
   compare_constants_on (<["K"%string := "2x8"%string]> example_risc0) example_ours
     [("K", "K")%string]
   = ([], Raised ValueError)) /\
  compare_constants_on example_risc0 example_ours [("Q", "K"); ("K", "K")]%string
  = ([], Raised (KeyError "Q")).
Proof.
  split; [split; [|split]|].
  - constructor; [|constructor].
    exists "258"%string, 258. repeat split; try reflexivity; lia.
  - exists "2"%string, "8"%string, "5"%char, "x"%char.
    repeat split; [discriminate|reflexivity..].
  - vm_compute. reflexivity.
  - vm_compute. reflexivity.
Qed.

Lemma cross_check_pair_by_pair_witness :
  well_formed example_risc0_three example_ours_three
    (canonical_values example_risc0_three example_ours_three)
    [("K", "K"); ("L", "L")]%string /\
  matches (canonical_values example_risc0_three example_ours_three ("K", "K")%string)
  = true /\
  compare_constants_on (<["K"%string := "259"%string]> example_risc0_three)
    example_ours_three [("K", "K"); ("L", "L")]%string
  = (report
       (with_risc0_hex "K" (little_endian_hex 259)
          (canonical_values example_risc0_three example_ours_three))
       [("K", "K"); ("L", "L")]%string,
     Returned 1).
Proof.
  assert (Hwf : well_formed example_risc0_three example_ours_three
                  (canonical_values example_risc0_three example_ours_three)
                  [("K", "K"); ("L", "L")]%string).
  { constructor; [reflexivity|]. constructor; [reflexivity|]. constructor. }
  split; [exact Hwf|].
  destruct (cross_check_pair_by_pair example_risc0_three example_ours_three
              (canonical_values example_risc0_three example_ours_three)
              [("K", "K"); ("L", "L")]%string Hwf)
    as ((_ & Hmatch) & _ & Hdec & _).
  split.
  - apply Hmatch; [left; reflexivity|].
    exists "258"%string, 258.
    split; [reflexivity|]. split; [reflexivity|]. split; [lia | reflexivity].
  - refine (proj1 (Hdec "K"%string "258"%string "259"%string 258 259 _ _ _ _ _));
      [reflexivity | reflexivity | reflexivity | lia | lia].
Defined.

End CrossCheck.
